(** * sec-intel: the streaming query client of [SECAnalyzer]

    A shallow embedding of [handleSubmit] from
    [src/app/components/SECAnalyzer.tsx]: the submit guard, the
    cancellation of the previous request, the read loop with its carry-over
    buffer, the per-line dispatch on the [data: ] prefix and on the fields of
    the decoded payload, and the [catch]/[finally] blocks.

    The platform is modelled first (JavaScript strings, [TextDecoder],
    [JSON.parse], the coercions applied to a payload), then the handler, then
    the event loop in which several invocations of [handleSubmit] coexist.
    The older [SECAnalyzer.jsx] is embedded beside it for comparison. *)

From Stdlib Require Import List NArith ZArith Bool Lia.
From Stdlib Require Import Strings.String Strings.Ascii Strings.Byte.
Import ListNotations.

Local Open Scope N_scope.

(** ** JavaScript strings

    A JavaScript string is a sequence of UTF-16 code units. *)

Module JsString.

Definition jsstring := list N.

(** An ASCII literal of the source, as code units. *)
Definition lit (s : string) : jsstring :=
  map N_of_ascii (list_ascii_of_string s).

Fixpoint eqb (a b : jsstring) : bool :=
  match a, b with
  | [], [] => true
  | x :: a', y :: b' => (x =? y) && eqb a' b'
  | _, _ => false
  end.

(** [s.startsWith(p)] *)
Fixpoint startsWith (s p : jsstring) {struct p} : bool :=
  match p with
  | [] => true
  | y :: p' =>
      match s with
      | x :: s' => (x =? y) && startsWith s' p'
      | [] => false
      end
  end.

(** [s.slice(n)] for a non-negative [n]. *)
Definition slice (n : nat) (s : jsstring) : jsstring := skipn n s.

(** The code units [String.prototype.trim] strips: ECMAScript's WhiteSpace
    and LineTerminator productions. *)
Definition is_white_space (c : N) : bool :=
  (c =? 9) || (c =? 10) || (c =? 11) || (c =? 12) || (c =? 13) || (c =? 32)
  || (c =? 160) || (c =? 5760) || ((8192 <=? c) && (c <=? 8202))
  || (c =? 8232) || (c =? 8233) || (c =? 8239) || (c =? 8287)
  || (c =? 12288) || (c =? 65279).

Fixpoint trimStart (s : jsstring) : jsstring :=
  match s with
  | c :: s' => if is_white_space c then trimStart s' else s
  | [] => []
  end.

Definition trimEnd (s : jsstring) : jsstring := rev (trimStart (rev s)).

(** [s.trim()] *)
Definition trim (s : jsstring) : jsstring := trimEnd (trimStart s).

(** The line feed on which the stream is split. *)
Definition LF : N := 10.

(** [s.split('\n')]: never empty, the last element is what follows the
    last line feed. *)
Fixpoint split_lines (s : jsstring) : list jsstring :=
  match s with
  | [] => [[]]
  | c :: s' =>
      if c =? LF then [] :: split_lines s'
      else match split_lines s' with
           | l :: ls => (c :: l) :: ls
           | [] => [[c]]
           end
  end.

(** What [lines.pop() || ''] returns, and what is left in [lines]. *)
Definition pop_or_empty (lines : list jsstring) : jsstring := last lines [].
Definition after_pop (lines : list jsstring) : list jsstring := removelast lines.

End JsString.
Export JsString.
Arguments lit s%_string.


(** ** [TextDecoder]

    [new TextDecoder()] decodes UTF-8 in replacement mode. With
    [{ stream: true }] its state survives from one call of [decode] to the
    next: the bytes of an unfinished sequence, and whether the first code
    point (a byte order mark is dropped there) has been seen. *)

Module TextDecoder.

Record state := {
  code_point : N;
  bytes_seen : N;
  bytes_needed : N;
  lower_boundary : N;
  upper_boundary : N;
  bom_seen : bool
}.

Definition initial : state :=
  {| code_point := 0; bytes_seen := 0; bytes_needed := 0;
     lower_boundary := 0x80; upper_boundary := 0xBF; bom_seen := false |}.

Definition between (lo hi b : N) : bool := (lo <=? b) && (b <=? hi).

Definition REPLACEMENT : N := 0xFFFD.

Definition expect (st : state) (needed cp lo hi : N) : state :=
  {| code_point := cp; bytes_seen := 0; bytes_needed := needed;
     lower_boundary := lo; upper_boundary := hi; bom_seen := bom_seen st |}.

Definition reset (st : state) : state := expect st 0 0 0x80 0xBF.

(** A byte met when no sequence is open. *)
Definition lead (st : state) (b : N) : state * list N :=
  if b <=? 0x7F then (st, [b])
  else if between 0xC2 0xDF b then (expect st 1 (N.land b 0x1F) 0x80 0xBF, [])
  else if between 0xE0 0xEF b then
    (expect st 2 (N.land b 0xF)
       (if b =? 0xE0 then 0xA0 else 0x80) (if b =? 0xED then 0x9F else 0xBF), [])
  else if between 0xF0 0xF4 b then
    (expect st 3 (N.land b 0x7)
       (if b =? 0xF0 then 0x90 else 0x80) (if b =? 0xF4 then 0x8F else 0xBF), [])
  else (st, [REPLACEMENT]).

(** The decoder's handler for one byte: the code points it emits, an error
    being the replacement character. A byte that cannot continue the open
    sequence ends it with an error and is handled again as a lead byte. *)
Definition handler (st : state) (b : N) : state * list N :=
  if bytes_needed st =? 0 then lead st b
  else if negb (between (lower_boundary st) (upper_boundary st) b) then
    let (st', out) := lead (reset st) b in (st', REPLACEMENT :: out)
  else
    let cp := N.lor (N.shiftl (code_point st) 6) (N.land b 0x3F) in
    let seen := bytes_seen st + 1 in
    if seen =? bytes_needed st then (reset st, [cp])
    else ({| code_point := cp; bytes_seen := seen;
             bytes_needed := bytes_needed st;
             lower_boundary := 0x80; upper_boundary := 0xBF;
             bom_seen := bom_seen st |}, []).

(** The first code point of the stream is dropped when it is U+FEFF. *)
Fixpoint strip_bom (seen : bool) (cps : list N) : bool * list N :=
  match cps with
  | [] => (seen, [])
  | cp :: cps' =>
      if seen then (true, cps)
      else if cp =? 0xFEFF then strip_bom true cps'
      else (true, cps)
  end.

(** A code point as UTF-16 code units. *)
Definition code_units (cp : N) : jsstring :=
  if cp <? 0x10000 then [cp]
  else let c := cp - 0x10000 in
       [0xD800 + N.shiftr c 10; 0xDC00 + N.land c 0x3FF].

Definition step (st : state) (b : byte) : state * jsstring :=
  let (st1, cps) := handler st (Byte.to_N b) in
  let (seen, cps') := strip_bom (bom_seen st1) cps in
  ({| code_point := code_point st1; bytes_seen := bytes_seen st1;
      bytes_needed := bytes_needed st1;
      lower_boundary := lower_boundary st1;
      upper_boundary := upper_boundary st1; bom_seen := seen |},
   flat_map code_units cps').

(** [decoder.decode(value, { stream: true })] *)
Fixpoint decode (st : state) (value : list byte) : state * jsstring :=
  match value with
  | [] => (st, [])
  | b :: value' =>
      let (st1, out1) := step st b in
      let (st2, out2) := decode st1 value' in
      (st2, out1 ++ out2)
  end.

(** [decoder.decode(value)]: the call stands alone; a sequence left open at
    the end of [value] is an error. *)
Definition decode_flush (value : list byte) : jsstring :=
  let (st, out) := decode initial value in
  if bytes_needed st =? 0 then out
  else out ++ snd (strip_bom (bom_seen st) [REPLACEMENT]).

End TextDecoder.


(** ** [JSON.parse] and the coercions applied to a payload *)

Module JSON.

(** A number of a JSON text, kept exact: [(-1)^negative * coefficient *
    10^exponent]. *)
Record number := { negative : bool; coefficient : N; exponent : Z }.

#[local] Set Warnings "-register-all".

Inductive value :=
| JNull
| JBool (b : bool)
| JNumber (n : number)
| JString (s : jsstring)
| JArray (elements : list value)
| JObject (members : list (jsstring * value)).

Definition ch (a : ascii) : N := N_of_ascii a.
Arguments ch a%_char.

(** JSON white space: space, tab, line feed, carriage return. *)
Definition is_ws (c : N) : bool :=
  (c =? 32) || (c =? 9) || (c =? 10) || (c =? 13).

Fixpoint skip_ws (s : jsstring) : jsstring :=
  match s with
  | c :: s' => if is_ws c then skip_ws s' else s
  | [] => []
  end.

Definition hex_digit (c : N) : option N :=
  if (ch "0" <=? c) && (c <=? ch "9") then Some (c - ch "0")
  else if (ch "a" <=? c) && (c <=? ch "f") then Some (c - ch "a" + 10)
  else if (ch "A" <=? c) && (c <=? ch "F") then Some (c - ch "A" + 10)
  else None.

Definition hex4 (a b c d : N) : option N :=
  match hex_digit a, hex_digit b, hex_digit c, hex_digit d with
  | Some x, Some y, Some z, Some w => Some (((x * 16 + y) * 16 + z) * 16 + w)
  | _, _, _, _ => None
  end.

(** The double quote and the reverse solidus. *)
Definition QUOTE : N := 34.
Definition BACKSLASH : N := 92.

Definition escape (c : N) : option N :=
  if c =? QUOTE then Some QUOTE
  else if c =? BACKSLASH then Some BACKSLASH
  else if c =? ch "/" then Some (ch "/")
  else if c =? ch "b" then Some 8
  else if c =? ch "f" then Some 12
  else if c =? ch "n" then Some 10
  else if c =? ch "r" then Some 13
  else if c =? ch "t" then Some 9
  else None.

Definition cons_char (c : N) (r : option (jsstring * jsstring)) :=
  match r with
  | Some (s, rest) => Some (c :: s, rest)
  | None => None
  end.

(** The characters of a string up to its closing quote, and what follows. *)
Fixpoint parse_chars (s : jsstring) : option (jsstring * jsstring) :=
  match s with
  | [] => None
  | c :: s1 =>
      if c =? QUOTE then Some ([], s1)
      else if c =? BACKSLASH then
        match s1 with
        | [] => None
        | e :: s2 =>
            if e =? ch "u" then
              match s2 with
              | h1 :: h2 :: h3 :: h4 :: s3 =>
                  match hex4 h1 h2 h3 h4 with
                  | Some u => cons_char u (parse_chars s3)
                  | None => None
                  end
              | _ => None
              end
            else
              match escape e with
              | Some u => cons_char u (parse_chars s2)
              | None => None
              end
        end
      else if c <? 32 then None
      else cons_char c (parse_chars s1)
  end.

Definition is_digit (c : N) : bool := (ch "0" <=? c) && (c <=? ch "9").

Fixpoint digits (s : jsstring) : list N * jsstring :=
  match s with
  | c :: s' =>
      if is_digit c then let (ds, rest) := digits s' in (c - ch "0" :: ds, rest)
      else ([], s)
  | [] => ([], [])
  end.

Definition digits_value (ds : list N) : N :=
  fold_left (fun acc d => 10 * acc + d) ds 0.

Definition parse_fraction (s : jsstring) : option (list N * jsstring) :=
  match s with
  | c :: s1 =>
      if c =? ch "." then
        match digits s1 with
        | ([], _) => None
        | (ds, rest) => Some (ds, rest)
        end
      else Some ([], s)
  | [] => Some ([], s)
  end.

Definition parse_exponent (s : jsstring) : option (Z * jsstring) :=
  match s with
  | c :: s1 =>
      if (c =? ch "e") || (c =? ch "E") then
        let (neg, s2) :=
          match s1 with
          | g :: r => if g =? ch "-" then (true, r)
                      else if g =? ch "+" then (false, r) else (false, s1)
          | [] => (false, s1)
          end in
        match digits s2 with
        | ([], _) => None
        | (ds, rest) =>
            let e := Z.of_N (digits_value ds) in
            Some (if neg then Z.opp e else e, rest)
        end
      else Some (0%Z, s)
  | [] => Some (0%Z, s)
  end.

Definition parse_number (s : jsstring) : option (number * jsstring) :=
  let (neg, s1) :=
    match s with
    | c :: r => if c =? ch "-" then (true, r) else (false, s)
    | [] => (false, s)
    end in
  match digits s1 with
  | ([], _) => None
  | (d :: ds, s2) =>
      if (d =? 0) && negb (Nat.eqb (List.length ds) 0) then None
      else
        match parse_fraction s2 with
        | None => None
        | Some (fs, s3) =>
            match parse_exponent s3 with
            | None => None
            | Some (e, s4) =>
                Some ({| negative := neg;
                         coefficient := digits_value (d :: ds ++ fs);
                         exponent := (e - Z.of_nat (List.length fs))%Z |}, s4)
            end
        end
  end.

(** A string, a literal name or a number at the head of [s]. *)
Definition parse_scalar (s : jsstring) : option (value * jsstring) :=
  match s with
  | [] => None
  | c :: s1 =>
      if c =? QUOTE then
        match parse_chars s1 with
        | Some (str, rest) => Some (JString str, rest)
        | None => None
        end
      else if startsWith s (lit "true") then Some (JBool true, skipn 4 s)
      else if startsWith s (lit "false") then Some (JBool false, skipn 5 s)
      else if startsWith s (lit "null") then Some (JNull, skipn 4 s)
      else
        match parse_number s with
        | Some (n, rest) => Some (JNumber n, rest)
        | None => None
        end
  end.

(** A value after optional white space; the fuel bounds the recursion
    into arrays and objects. *)
Fixpoint parse_value (fuel : nat) (s : jsstring) : option (value * jsstring) :=
  match fuel with
  | O => None
  | S fuel' =>
      let s0 := skip_ws s in
      match s0 with
      | [] => None
      | c :: s1 =>
          if c =? ch "{" then
            match skip_ws s1 with
            | c' :: s2 =>
                if c' =? ch "}" then Some (JObject [], s2)
                else parse_members fuel' s1 []
            | [] => None
            end
          else if c =? ch "[" then
            match skip_ws s1 with
            | c' :: s2 =>
                if c' =? ch "]" then Some (JArray [], s2)
                else parse_elements fuel' s1 []
            | [] => None
            end
          else parse_scalar s0
      end
  end
with parse_elements (fuel : nat) (s : jsstring) (acc : list value)
  : option (value * jsstring) :=
  match fuel with
  | O => None
  | S fuel' =>
      match parse_value fuel' s with
      | None => None
      | Some (v, s1) =>
          match skip_ws s1 with
          | c :: s2 =>
              if c =? ch "," then parse_elements fuel' s2 (v :: acc)
              else if c =? ch "]" then Some (JArray (rev (v :: acc)), s2)
              else None
          | [] => None
          end
      end
  end
with parse_members (fuel : nat) (s : jsstring) (acc : list (jsstring * value))
  : option (value * jsstring) :=
  match fuel with
  | O => None
  | S fuel' =>
      match skip_ws s with
      | q :: s1 =>
          if q =? QUOTE then
            match parse_chars s1 with
            | None => None
            | Some (key, s2) =>
                match skip_ws s2 with
                | c :: s3 =>
                    if c =? ch ":" then
                      match parse_value fuel' s3 with
                      | None => None
                      | Some (v, s4) =>
                          match skip_ws s4 with
                          | d :: s5 =>
                              if d =? ch "," then
                                parse_members fuel' s5 ((key, v) :: acc)
                              else if d =? ch "}" then
                                Some (JObject (rev ((key, v) :: acc)), s5)
                              else None
                          | [] => None
                          end
                      end
                    else None
                | [] => None
                end
            end
          else None
      | [] => None
      end
  end.

(** [JSON.parse(text)]; [None] is the [SyntaxError] it throws. One value,
    white space around it, nothing more. *)
Definition parse (text : jsstring) : option value :=
  match parse_value (2 * List.length text + 2) text with
  | Some (v, rest) =>
      match skip_ws rest with
      | [] => Some v
      | _ :: _ => None
      end
  | None => None
  end.

(** [o.key] on an object made by [JSON.parse]: of two members with one
    name the later stands; [None] is [undefined]. *)
Definition Get (members : list (jsstring * value)) (key : jsstring)
  : option value :=
  fold_left (fun found m => if eqb (fst m) key then Some (snd m) else found)
            members None.

(** [data.key] for [key] one of [done], [error], [content], which no
    prototype defines. The outer [None] is the [TypeError] of reading a
    property of [null]. *)
Definition property (data : value) (key : jsstring) : option (option value) :=
  match data with
  | JNull => None
  | JObject members => Some (Get members key)
  | _ => Some None
  end.

(** A number that [JSON.parse] turns into the double zero: zero itself, or
    a magnitude not above half the least subnormal, [2^-1075]. *)
Definition is_zero (n : number) : bool :=
  (coefficient n =? 0)
  || match exponent n with
     | Zneg e => coefficient n * 2 ^ 1075 <=? 10 ^ Npos e
     | _ => false
     end.

(** ToBoolean, as applied by [if (data.key)]. *)
Definition truthy (v : option value) : bool :=
  match v with
  | None => false
  | Some JNull => false
  | Some (JBool b) => b
  | Some (JNumber n) => negb (is_zero n)
  | Some (JString s) => negb (Nat.eqb (List.length s) 0)
  | Some (JArray _) => true
  | Some (JObject _) => true
  end.

End JSON.
Export JSON.


(** ** The component's state and what a handler does to it *)

Module React.

(** [const [response, setResponse] = useState('')] and
    [const [loading, setLoading] = useState(false)]. *)
Record ui := { response : jsstring; loading : bool }.

Inductive console_method := log | error.

(** What a run of [handleSubmit] does besides computing: the state setters,
    the console (its label only), the release of the reader. *)
Inductive effect :=
| setLoading (b : bool)
| setResponse (s : jsstring)
| setResponse_append (s : jsstring)
| console (m : console_method) (label : string)
| releaseLock.

(** [setResponse_append s] is [setResponse(prev => prev + s)]. *)
Definition apply (u : ui) (e : effect) : ui :=
  match e with
  | setLoading b => {| response := response u; loading := b |}
  | setResponse s => {| response := s; loading := loading u |}
  | setResponse_append s => {| response := response u ++ s; loading := loading u |}
  | console _ _ => u
  | releaseLock => u
  end.

Definition apply_all (u : ui) (es : list effect) : ui := fold_left apply es u.

(** The effects that reach the component's state. *)
Definition on_state (e : effect) : bool :=
  match e with
  | setLoading _ | setResponse _ | setResponse_append _ => true
  | console _ _ | releaseLock => false
  end.

Definition state_effects (es : list effect) : list effect := filter on_state es.

End React.
Export React.
Arguments console m label%_string.


(** ** Streams used as examples *)

Module Scenario.

(** The bytes of an example: an apostrophe stands for the double quote of
    the wire and a vertical bar for its line feed. *)
Definition wire (s : string) : list byte :=
  map (fun b => if Byte.eqb b "'"%byte then x22
                else if Byte.eqb b "|"%byte then x0a else b)
      (list_byte_of_string s).
Arguments wire s%_string.

(** The same for a line already decoded. *)
Definition text (s : string) : jsstring := map Byte.to_N (wire s).
Arguments text s%_string.

(** What stands for the platform's printing of numbers, arrays and objects
    when an example is run; none occurs in the examples. *)
Definition print : value -> jsstring := fun _ => lit "[object Object]".

Definition q1 : jsstring := lit "What was Apple's revenue in 2024?".
Definition q2 : jsstring := lit "Tell me about Meta's recent quarterly results".

Definition revenue : list (list byte) :=
  [wire "data: {'content':'Reven'}|";
   wire "data: {'content':'ue: $10B'}|";
   wire "data: {'done':true}|"].

Definition whole : list (list byte) :=
  [wire "data: {'content':'Reven'}|data: {'content':'ue'}|"].

Definition split_mid_line : list (list byte) :=
  [wire "data: {'con"; wire "tent':'Reven'}|data: {'content"; wire "':'ue'}|"].

(** The two bytes of U+00E9 fall into different chunks. *)
Definition split_mid_character : list (list byte) :=
  [wire "data: {'content':'caf" ++ [xc3]; xa9 :: wire "'}|"].

Definition done_then_more : list (list byte) :=
  [wire "data: {'content':'A'}|data: {'done':true}|";
   wire "data: {'content':'B'}|"].

Definition rate_limited : list (list byte) :=
  [wire "data: {'content':'Partial'}|data: {'error':'rate limited'}|";
   wire "data: {'content':'late'}|"].

Definition empty_error : list (list byte) :=
  [wire "data: {'error':''}|data: {'content':'still streaming'}|"].

Definition with_garbage : list (list byte) :=
  [wire "data: {'content':'A'}|data: {'content':|data: {'content':'B'}|"].

Definition framed : list (list byte) :=
  [wire "event: message|data: {'content':'Reven'}||data: {'con";
   wire "tent':'ue'}||"].

(** The last line lacks its line feed. *)
Definition unterminated : list (list byte) :=
  [wire "data: {'content':'A'}|data: {'content':'B'}"].

Definition without_garbage : list (list byte) :=
  [wire "data: {'content':'A'}|data: {'content':'B'}|"].

End Scenario.


(** ** The stream consumer of [handleSubmit] *)

Section Handler.

(** [StreamData] declares [content?: string] and [error?: string], and for
    a string the conversion applied by [prev + data.content] and by
    [`${data.error}`] is the identity. What the platform prints for a
    truthy number, array or object stays a parameter: every result below
    holds whatever it is. *)
Variable ToString_other : value -> jsstring.

Definition ToString (v : option value) : jsstring :=
  match v with
  | Some (JString s) => s
  | Some (JBool true) => lit "true"
  | Some (JBool false) => lit "false"
  | Some JNull => lit "null"
  | Some other => ToString_other other
  | None => lit "undefined"
  end.

(** How a statement list ends: it falls through, it executes [return], or
    it throws. *)
Inductive completion := Normal | Returned | Thrown.

Inductive control := Continue | Return.

Definition PREFIX : jsstring := lit "data: ".
Definition SENTINEL : jsstring := lit "[DONE]".

(** The notice of a server-signalled error: [`\n\nError: ${data.error}`]. *)
Definition error_notice (message : jsstring) : jsstring :=
  LF :: LF :: lit "Error: " ++ message.

Definition SORRY : jsstring :=
  lit "Sorry, there was an error processing your request. Please try again.".

(** The body of the [try] of a line that starts with [data: ]. *)
Definition try_data (line : jsstring) : list effect * completion :=
  let dataStr := trim (slice 6 line) in
  if eqb dataStr SENTINEL then
    ([console log "Received [DONE] signal"; setLoading false], Returned)
  else
    match JSON.parse dataStr with
    | None => ([], Thrown)
    | Some data =>
        match property data (lit "done"), property data (lit "error"),
              property data (lit "content") with
        | Some done, Some err, Some content =>
            if truthy done then
              ([console log "Parsed data:"; console log "Received done signal";
                setLoading false], Returned)
            else if truthy err then
              ([console log "Parsed data:"; console error "Stream error:";
                setResponse_append (error_notice (ToString err));
                setLoading false], Returned)
            else if truthy content then
              ([console log "Parsed data:";
                setResponse_append (ToString content)], Normal)
            else ([console log "Parsed data:"], Normal)
        | _, _, _ => ([console log "Parsed data:"], Thrown)
        end
    end.

(** One iteration of [for (const line of lines)]. *)
Definition process_line (line : jsstring) : list effect * control :=
  if startsWith line PREFIX then
    match try_data line with
    | (es, Normal) => (es, Continue)
    | (es, Returned) => (es, Return)
    | (es, Thrown) => (es ++ [console error "Error parsing SSE data:"], Continue)
    end
  else if eqb (trim line) [] then ([], Continue)
  else if startsWith line (lit "event:") || startsWith line (lit "id:")
          || startsWith line (lit "retry:") then ([], Continue)
  else ([console log "Unhandled line:"], Continue).

Fixpoint process_lines (lines : list jsstring) : list effect * control :=
  match lines with
  | [] => ([], Continue)
  | line :: rest =>
      match process_line line with
      | (es, Return) => (es, Return)
      | (es, Continue) =>
          let (es', c) := process_lines rest in (es ++ es', c)
      end
  end.

(** The locals that live across [await reader.read()]. *)
Record reader := { decoder : TextDecoder.state; buffer : jsstring }.

(** Where an invocation of [handleSubmit] is suspended. *)
Inductive handler :=
| AwaitFetch
| AwaitRead (rd : reader)
| Finished.

Inductive rejection := AbortError | TypeError.

(** How the promise a handler awaits settles. *)
Inductive settlement :=
| fetch_response (ok body : bool)
| fetch_rejected (e : rejection)
| read_chunk (value : list byte)
| read_done
| read_rejected (e : rejection).

(** The outer [catch] and [finally]. *)
Definition catch_streaming_error (abort : bool) : list effect :=
  console error "Streaming error:"
  :: (if abort then [] else [setResponse SORRY]).

Definition finally_outer : list effect := [setLoading false].

Definition is_abort (e : rejection) : bool :=
  match e with AbortError => true | TypeError => false end.

(** [let buffer = ''] beside a new decoder. *)
Definition fresh_reader : reader :=
  {| decoder := TextDecoder.initial; buffer := [] |}.

(** From [await fetch(...)] to the first [await reader.read()]. *)
Definition after_fetch (s : settlement) : list effect * handler :=
  match s with
  | fetch_response true true =>
      ([console log "Response content-type:"], AwaitRead fresh_reader)
  | fetch_response true false =>
      (console log "Response content-type:"
       :: catch_streaming_error false ++ finally_outer, Finished)
  | fetch_response false _ =>
      (catch_streaming_error false ++ finally_outer, Finished)
  | fetch_rejected e =>
      (catch_streaming_error (is_abort e) ++ finally_outer, Finished)
  | _ => ([], AwaitFetch)
  end.

(** One turn of [while (true)], from the settlement of [reader.read()] to
    the next [await] or to the end of the function. *)
Definition after_read (rd : reader) (s : settlement) : list effect * handler :=
  match s with
  | read_done =>
      ([console log "Stream completed"; releaseLock] ++ finally_outer, Finished)
  | read_chunk value =>
      let (dec, chunk) := TextDecoder.decode (decoder rd) value in
      let lines := split_lines (buffer rd ++ chunk) in
      let buffer' := pop_or_empty lines in
      match process_lines (after_pop lines) with
      | (es, Return) =>
          (console log "Received chunk:" :: es ++ releaseLock :: finally_outer,
           Finished)
      | (es, Continue) =>
          (console log "Received chunk:" :: es,
           AwaitRead {| decoder := dec; buffer := buffer' |})
      end
  | read_rejected e =>
      (releaseLock :: catch_streaming_error (is_abort e) ++ finally_outer,
       Finished)
  | _ => ([], AwaitRead rd)
  end.

Definition resume (h : handler) (s : settlement) : list effect * handler :=
  match h with
  | AwaitFetch => after_fetch s
  | AwaitRead rd => after_read rd s
  | Finished => ([], Finished)
  end.

Fixpoint resume_all (h : handler) (ss : list settlement)
  : list effect * handler :=
  match ss with
  | [] => ([], h)
  | s :: ss' =>
      let (es, h1) := resume h s in
      let (es', h2) := resume_all h1 ss' in
      (es ++ es', h2)
  end.


(** ** The component: state, references, and the handlers in flight *)

Record world := {
  state : ui;
  abortControllerRef : option nat;
  aborted : list nat;
  handlers : list handler;
  posted : list jsstring
}.

Definition mounted : world :=
  {| state := {| response := []; loading := false |};
     abortControllerRef := None; aborted := []; handlers := []; posted := [] |}.

(** [handleSubmit] up to [await fetch(...)]. The [i]-th invocation that
    passes the guard owns controller [i] and posts request [i].
    [eventSourceRef.current] is never assigned, so its branch is dead. *)
Definition handleSubmit (query : jsstring) (w : world) : world :=
  if eqb (trim query) [] then w
  else
    {| state := apply_all (state w) [setLoading true; setResponse []];
       abortControllerRef := Some (List.length (handlers w));
       aborted := match abortControllerRef w with
                  | Some c => c :: aborted w
                  | None => aborted w
                  end;
       handlers := handlers w ++ [AwaitFetch];
       posted := posted w ++ [query] |}.

Fixpoint replace (i : nat) (h : handler) (hs : list handler) : list handler :=
  match hs, i with
  | [], _ => []
  | _ :: hs', O => h :: hs'
  | h0 :: hs', S i' => h0 :: replace i' h hs'
  end.

Inductive event :=
| Submit (query : jsstring)
| Settle (i : nat) (s : settlement).

Definition step (w : world) (ev : event) : world :=
  match ev with
  | Submit query => handleSubmit query w
  | Settle i s =>
      match nth_error (handlers w) i with
      | None => w
      | Some h =>
          let (es, h') := resume h s in
          {| state := apply_all (state w) es;
             abortControllerRef := abortControllerRef w;
             aborted := aborted w;
             handlers := replace i h' (handlers w);
             posted := posted w |}
      end
  end.

Definition run (w : world) (evs : list event) : world := fold_left step evs w.

(** What the platform can deliver: once [abort()] was called on its
    controller, what a handler awaits is rejected with [AbortError], and
    only then. *)
Definition rejected_with (s : settlement) : option rejection :=
  match s with
  | fetch_rejected e | read_rejected e => Some e
  | _ => None
  end.

Definition deliverable (w : world) (ev : event) : Prop :=
  match ev with
  | Submit _ => True
  | Settle i s =>
      if existsb (Nat.eqb i) (aborted w)
      then rejected_with s = Some AbortError
      else rejected_with s <> Some AbortError
  end.

(** One request from its submission in [w] on: the response arrives with a
    body, then the reads settle as listed; nothing is delivered to the
    handlers [w] already has. *)
Definition request (w : world) (query : jsstring) (reads : list settlement)
  : list event :=
  let i := List.length (handlers w) in
  Submit query :: Settle i (fetch_response true true) :: map (Settle i) reads.

Definition chunks (values : list (list byte)) : list settlement :=
  map read_chunk values.

(** The complete lines of everything the transport delivered. *)
Definition received_text (values : list (list byte)) : jsstring :=
  snd (TextDecoder.decode TextDecoder.initial (List.concat values)).

Definition complete_lines (text : jsstring) : list jsstring :=
  after_pop (split_lines text).


(** ** Vocabulary of the claims *)

(** The state [handleSubmit] leaves before the request is sent. *)
Definition submitted : ui := {| response := []; loading := true |}.

Definition ui_after_lines (lines : list jsstring) : ui :=
  apply_all submitted (fst (process_lines lines)).

(** A line that starts with [data: ], and what follows the prefix. *)
Definition recognized (line : jsstring) : bool := startsWith line PREFIX.
Definition dataStr_of (line : jsstring) : jsstring := trim (slice 6 line).

(** A field of the payload of a line; [undefined] also when the payload is
    no object. *)
Definition field (line key : jsstring) : option value :=
  match JSON.parse (dataStr_of line) with
  | Some (JObject members) => Get members key
  | _ => None
  end.

(** A line that ends the stream: the sentinel, a payload whose [done] is
    truthy, a payload whose [error] is truthy. *)
Definition is_terminal (line : jsstring) : bool :=
  recognized line
  && (eqb (dataStr_of line) SENTINEL
      || truthy (field line (lit "done"))
      || truthy (field line (lit "error"))).

(** The text a line contributes to the answer. *)
Definition content_of (line : jsstring) : jsstring :=
  if recognized line && truthy (field line (lit "content"))
  then ToString (field line (lit "content"))
  else [].

(** A line whose payload is a content payload: its [content] is the string
    [c], and neither [done] nor [error] is set. *)
Definition content_line (line c : jsstring) : Prop :=
  recognized line = true
  /\ field line (lit "content") = Some (JString c)
  /\ truthy (field line (lit "done")) = false
  /\ truthy (field line (lit "error")) = false.

(** What the read loop has done to the state, and where it stands, once
    the chunks [values] have been delivered; stated on the undivided byte
    sequence. *)
Definition loop_result (rd : reader) (values : list (list byte))
  : list effect * handler :=
  let (dec, text) := TextDecoder.decode (decoder rd) (List.concat values) in
  let lines := split_lines (buffer rd ++ text) in
  match process_lines (after_pop lines) with
  | (es, Return) => (state_effects es ++ [setLoading false], Finished)
  | (es, Continue) =>
      (state_effects es,
       AwaitRead {| decoder := dec; buffer := pop_or_empty lines |})
  end.

(** The contents [cs] carried, in order, by lines that are content
    payloads or, between them, lines without the prefix (the blank lines
    and the framing of an event stream). *)
Inductive carries : list jsstring -> list jsstring -> Prop :=
| carries_nothing : carries [] []
| carries_content (line c : jsstring) (lines cs : list jsstring) :
    content_line line c -> carries lines cs ->
    carries (line :: lines) (c :: cs)
| carries_framing (line : jsstring) (lines cs : list jsstring) :
    recognized line = false -> carries lines cs ->
    carries (line :: lines) cs.

(** The end of a stream under observation: still open, or closed by the
    transport. *)
Definition closing (eof : bool) : list settlement :=
  if eof then [read_done] else [].

(** C5 as the spec words it: any payload with an [error] field, reached
    while the stream is live, ends the stream with a notice. *)
Definition error_field_always_terminates : Prop :=
  forall (values : list (list byte)) (pre post : list jsstring)
         (line : jsstring) (members : list (jsstring * value)) (err : value),
    complete_lines (received_text values) = pre ++ line :: post ->
    existsb is_terminal pre = false ->
    recognized line = true ->
    JSON.parse (dataStr_of line) = Some (JObject members) ->
    Get members (lit "error") = Some err ->
    let w := run mounted (request mounted (lit "q") (chunks values)) in
    loading (state w) = false
    /\ response (state w) =
       response (ui_after_lines pre) ++ error_notice (ToString (Some err))
    /\ nth_error (handlers w) 0 = Some Finished.


(** ** The older consumer, [SECAnalyzer.jsx]

    No abort controller, no carry-over buffer, no sentinel, no [error]
    field, and [break] where the newer file has [return]. *)

Definition jsx_try_data (line : jsstring) : list effect * completion :=
  match JSON.parse (slice 6 line) with
  | None => ([], Thrown)
  | Some data =>
      match property data (lit "done"), property data (lit "content") with
      | Some done, Some content =>
          if truthy done then ([setLoading false], Returned)
          else if truthy content then
            ([setResponse_append (ToString content)], Normal)
          else ([], Normal)
      | _, _ => ([], Thrown)
      end
  end.

(** The [for] loop over the lines of one chunk; [Returned] is its [break]. *)
Fixpoint jsx_process_lines (lines : list jsstring) : list effect :=
  match lines with
  | [] => []
  | line :: rest =>
      if startsWith line PREFIX then
        match jsx_try_data line with
        | (es, Normal) => es ++ jsx_process_lines rest
        | (es, Returned) => es
        | (es, Thrown) =>
            es ++ console error "Error parsing SSE data:"
               :: jsx_process_lines rest
        end
      else jsx_process_lines rest
  end.

(** The [while] loop over the settlements of [reader.read()]. *)
Fixpoint jsx_read_loop (ss : list settlement) : list effect :=
  match ss with
  | [] => []
  | read_chunk value :: ss' =>
      jsx_process_lines (split_lines (TextDecoder.decode_flush value))
      ++ jsx_read_loop ss'
  | read_done :: _ => []
  | read_rejected _ :: _ =>
      [console error "Error:"; setResponse SORRY; setLoading false]
  | _ :: ss' => jsx_read_loop ss'
  end.

Definition jsx_after_request (reads : list settlement) : ui :=
  apply_all submitted (jsx_read_loop reads).


(** ** A submission that overtakes another *)

(** [q1] is submitted and starts streaming; [q2] is submitted; the read
    that [q1]'s handler awaits is rejected with [AbortError]; then [q2]'s
    response and first chunk arrive. *)
Definition overtaken : list event :=
  [Submit Scenario.q1;
   Settle 0 (fetch_response true true);
   Settle 0 (read_chunk (Scenario.wire "data: {'content':'Apple: '}|"));
   Submit Scenario.q2;
   Settle 0 (read_rejected AbortError)].

Definition overtaking : list settlement :=
  [read_chunk (Scenario.wire "data: {'content':'Meta: '}|")].

(** What the platform delivers to a handler in flight once its controller
    was aborted: the promise it awaits is rejected with [AbortError]. *)
Definition abort_rejection (h : handler) : settlement :=
  match h with
  | AwaitFetch => fetch_rejected AbortError
  | _ => read_rejected AbortError
  end.

(** A first submission and what its handler has received so far. *)
Definition first_request (query : jsstring) (received : list settlement)
  : list event :=
  Submit query :: map (Settle 0) received.

Fixpoint deliverable_all (w : world) (evs : list event) : Prop :=
  match evs with
  | [] => True
  | ev :: evs' => deliverable w ev /\ deliverable_all (step w ev) evs'
  end.

(** ** More of the components *)

(** [s.split(sep)] and [a.join(sep)] for a separator of one code unit. *)
Fixpoint split_on (sep : N) (s : jsstring) : list jsstring :=
  match s with
  | [] => [[]]
  | c :: s' =>
      if c =? sep then [] :: split_on sep s'
      else match split_on sep s' with
           | l :: ls => (c :: l) :: ls
           | [] => [[c]]
           end
  end.

Fixpoint join_on (sep : N) (ls : list jsstring) : jsstring :=
  match ls with
  | [] => []
  | [l] => l
  | l :: ls' => l ++ sep :: join_on sep ls'
  end.

Definition SPACE : N := 32.
Definition CR : N := 13.

(** A submission in [w] and how the promises of its handler settle, the
    response included. *)
Definition submission (w : world) (query : jsstring)
  (settled : list settlement) : list event :=
  Submit query :: map (Settle (List.length (handlers w))) settled.

(** A handler that has not reached the end of [handleSubmit]. *)
Definition in_flight (h : handler) : bool :=
  match h with
  | Finished => false
  | _ => true
  end.

(** A settlement that sends the handler into the outer [catch] with an
    error that is no cancellation: the request fails, the status is not
    ok, the body is missing, a read fails. *)
Definition fails (h : handler) (s : settlement) : bool :=
  match h, s with
  | AwaitFetch, fetch_rejected TypeError => true
  | AwaitFetch, fetch_response false _ => true
  | AwaitFetch, fetch_response true false => true
  | AwaitRead _, read_rejected TypeError => true
  | _, _ => false
  end.

(** How often [reader.releaseLock()] runs. *)
Definition releases (es : list effect) : nat :=
  List.length (filter (fun e => match e with releaseLock => true | _ => false end) es).

(** Whether a handler that awaits [fetch] gets as far as
    [response.body.getReader()]: what settles [fetch] is a response whose
    status is ok and whose body is there. *)
Fixpoint obtains_reader (ss : list settlement) : bool :=
  match ss with
  | [] => false
  | fetch_response ok body :: _ => ok && body
  | fetch_rejected _ :: _ => false
  | _ :: ss' => obtains_reader ss'
  end.

(** The controls of the form: [<textarea disabled={loading}>] and
    [<button disabled={loading || !query.trim()}>]. *)
Definition textarea_disabled (w : world) : bool := loading (state w).

Definition button_disabled (w : world) (query : jsstring) : bool :=
  loading (state w) || eqb (trim query) [].

(** An event the rendered form lets happen: [handleSubmit] runs from the
    Enter key in the textarea or from the button, so while the textarea is
    enabled; promises settle at any time. *)
Definition allowed (w : world) (ev : event) : bool :=
  match ev with
  | Submit _ => negb (textarea_disabled w)
  | Settle _ _ => true
  end.

Fixpoint through_controls (w : world) (evs : list event) : bool :=
  match evs with
  | [] => true
  | ev :: evs' => allowed w ev && through_controls (step w ev) evs'
  end.



(** Every controller but the latest has been aborted, in the order of the
    submissions, and each handler has posted one request. *)
Definition controllers_in_order (w : world) : Prop :=
  List.length (posted w) = List.length (handlers w)
  /\ match List.length (handlers w) with
     | O => abortControllerRef w = None /\ aborted w = []
     | S n => abortControllerRef w = Some n /\ aborted w = rev (seq 0 n)
     end.

(** The line with a carriage return before its line feed. *)
Definition with_CR (line : jsstring) : jsstring := line ++ [CR].

(** The text with every line feed preceded by a carriage return. *)
Fixpoint crlf (s : jsstring) : jsstring :=
  match s with
  | [] => []
  | c :: s' => if c =? LF then CR :: LF :: crlf s' else c :: crlf s'
  end.

(** The effects other than those on the console. *)
Definition beyond_console (es : list effect) : list effect :=
  filter (fun e => match e with console _ _ => false | _ => true end) es.


(** ** The component that renders with [marked]

    The second [handleSubmit] of [SECAnalyzer.tsx]: the same statements
    without the [console.log] calls and without the branches for lines
    that carry no data. *)

Definition marked_try_data (line : jsstring) : list effect * completion :=
  let dataStr := trim (slice 6 line) in
  if eqb dataStr SENTINEL then ([setLoading false], Returned)
  else
    match JSON.parse dataStr with
    | None => ([], Thrown)
    | Some data =>
        match property data (lit "done"), property data (lit "error"),
              property data (lit "content") with
        | Some done, Some err, Some content =>
            if truthy done then ([setLoading false], Returned)
            else if truthy err then
              ([setResponse_append (error_notice (ToString err));
                setLoading false], Returned)
            else if truthy content then
              ([setResponse_append (ToString content)], Normal)
            else ([], Normal)
        | _, _, _ => ([], Thrown)
        end
    end.

Definition marked_process_line (line : jsstring) : list effect * control :=
  if startsWith line PREFIX then
    match marked_try_data line with
    | (es, Normal) => (es, Continue)
    | (es, Returned) => (es, Return)
    | (es, Thrown) => (es ++ [console error "Error parsing SSE data:"], Continue)
    end
  else ([], Continue).

Fixpoint marked_process_lines (lines : list jsstring)
  : list effect * control :=
  match lines with
  | [] => ([], Continue)
  | line :: rest =>
      match marked_process_line line with
      | (es, Return) => (es, Return)
      | (es, Continue) =>
          let (es', c) := marked_process_lines rest in (es ++ es', c)
      end
  end.

Definition marked_after_fetch (s : settlement) : list effect * handler :=
  match s with
  | fetch_response true true => ([], AwaitRead fresh_reader)
  | fetch_response _ _ =>
      (catch_streaming_error false ++ finally_outer, Finished)
  | fetch_rejected e =>
      (catch_streaming_error (is_abort e) ++ finally_outer, Finished)
  | _ => ([], AwaitFetch)
  end.

Definition marked_after_read (rd : reader) (s : settlement)
  : list effect * handler :=
  match s with
  | read_done => (releaseLock :: finally_outer, Finished)
  | read_chunk value =>
      let (dec, chunk) := TextDecoder.decode (decoder rd) value in
      let lines := split_lines (buffer rd ++ chunk) in
      let buffer' := pop_or_empty lines in
      match marked_process_lines (after_pop lines) with
      | (es, Return) => (es ++ releaseLock :: finally_outer, Finished)
      | (es, Continue) => (es, AwaitRead {| decoder := dec; buffer := buffer' |})
      end
  | read_rejected e =>
      (releaseLock :: catch_streaming_error (is_abort e) ++ finally_outer,
       Finished)
  | _ => ([], AwaitRead rd)
  end.

Definition marked_resume (h : handler) (s : settlement)
  : list effect * handler :=
  match h with
  | AwaitFetch => marked_after_fetch s
  | AwaitRead rd => marked_after_read rd s
  | Finished => ([], Finished)
  end.

Fixpoint marked_resume_all (h : handler) (ss : list settlement)
  : list effect * handler :=
  match ss with
  | [] => ([], h)
  | s :: ss' =>
      let (es, h1) := marked_resume h s in
      let (es', h2) := marked_resume_all h1 ss' in
      (es ++ es', h2)
  end.


(** ** The component with the simulated stream

    The third [handleSubmit] of [SECAnalyzer.tsx] posts nothing: it splits
    a fixed text at the spaces and shows one more word every 50 ms, for as
    long as the [loading] it closed over is true. That [loading] is the
    state of the render the handler was made in; [setLoading(true)] does
    not change it. *)

Definition mockResponse (query : jsstring) : jsstring :=
  lit "## Analysis of " ++ query ++ LF :: LF
  :: lit "      Based on the SEC filings analysis:" ++ LF :: LF
  :: lit "      **Key Findings:**" ++ LF
  :: lit "      - Revenue growth has been **strong** over the recent quarters"
  ++ LF
  :: lit "      - Operating margins have *improved* significantly" ++ LF
  :: lit "      - Cash flow remains robust" ++ LF :: LF
  :: lit "      **Financial Highlights:**" ++ LF
  :: lit "      - Q3 2024 revenue: $45.2B (+12% YoY)" ++ LF
  :: lit "      - Net income: $8.7B (+15% YoY)" ++ LF
  :: lit "      - Operating cash flow: $12.1B" ++ LF :: LF
  :: lit "      This analysis is based on the latest SEC 10-Q and 10-K filings.".

(** The [for] loop from index [i] on; [n] iterations are left. *)
Fixpoint mock_stream (loading : bool) (words : list jsstring) (i n : nat)
  : list effect :=
  match n with
  | O => []
  | S n' =>
      if negb loading then []
      else setResponse (join_on SPACE (firstn (S i) words))
           :: mock_stream loading words (S i) n'
  end.

Definition mock_handleSubmit (loading : bool) (query : jsstring)
  : list effect :=
  if eqb (trim query) [] then []
  else
    let words := split_on SPACE (mockResponse query) in
    setLoading true :: setResponse []
    :: mock_stream loading words 0 (List.length words) ++ [setLoading false].

(** What the simulated stream puts on display, in order. *)
Definition displayed (es : list effect) : list jsstring :=
  flat_map (fun e => match e with setResponse s => [s] | _ => [] end) es.

(** [a] is the beginning of [b]. *)
Definition begins (a b : jsstring) : Prop := exists rest, b = a ++ rest.


(** ** More of the older consumer *)

(** A line on which [SECAnalyzer.jsx] calls [setLoading(false)]. *)
Definition jsx_done (line : jsstring) : bool :=
  startsWith line PREFIX
  && match JSON.parse (slice 6 line) with
     | Some (JObject members) => truthy (Get members (lit "done"))
     | _ => false
     end.

(** ** Facts about the platform *)

Lemma jsstring_eqb_eq (a b : jsstring) : eqb a b = true <-> a = b.
Proof.
  revert b; induction a as [|x a IH]; intros [|y b]; simpl;
    try (split; [discriminate | congruence]); [tauto|].
  rewrite andb_true_iff, N.eqb_eq, IH. split.
  - intros [-> ->]; reflexivity.
  - intros H; injection H; auto.
Qed.

Lemma jsstring_eqb_refl (a : jsstring) : eqb a a = true.
Proof. apply jsstring_eqb_eq; reflexivity. Qed.

Lemma split_lines_nonempty (s : jsstring) : split_lines s <> [].
Proof.
  destruct s as [|c s]; simpl; [discriminate|].
  destruct (c =? LF); [discriminate|].
  destruct (split_lines s); discriminate.
Qed.

(** Splitting a concatenation: the complete lines of the first part stay,
    and its unfinished tail is glued in front of the second part. *)
Lemma split_lines_app (a b : jsstring) :
  split_lines (a ++ b) =
  after_pop (split_lines a) ++ split_lines (pop_or_empty (split_lines a) ++ b).
Proof.
  unfold after_pop, pop_or_empty.
  induction a as [|c a IH]; simpl; [reflexivity|].
  pose proof (split_lines_nonempty a) as Hne.
  destruct (c =? LF) eqn:Ec.
  - destruct (split_lines a) as [|l ls] eqn:E; [contradiction|].
    rewrite IH. reflexivity.
  - rewrite IH.
    destruct (split_lines a) as [|l ls] eqn:E; [contradiction|].
    destruct ls as [|l2 ls]; [|reflexivity].
    simpl. rewrite Ec.
    pose proof (split_lines_nonempty (l ++ b)) as Hne2.
    destruct (split_lines (l ++ b)); [contradiction | reflexivity].
Qed.

Lemma trimStart_all_white (s : jsstring) :
  forallb is_white_space s = true -> trimStart s = [].
Proof.
  induction s as [|c s IH]; simpl; [reflexivity|].
  intros H. apply andb_true_iff in H as [Hc Hs]. rewrite Hc. auto.
Qed.

Lemma trim_all_white (s : jsstring) :
  forallb is_white_space s = true -> trim s = [].
Proof.
  intros H. unfold trim, trimEnd. rewrite (trimStart_all_white s H).
  reflexivity.
Qed.

(** Decoding is byte by byte, so cutting [value] in two changes nothing. *)
Lemma decode_app (st : TextDecoder.state) (a b : list byte) :
  TextDecoder.decode st (a ++ b) =
  let (st1, out1) := TextDecoder.decode st a in
  let (st2, out2) := TextDecoder.decode st1 b in
  (st2, out1 ++ out2).
Proof.
  revert st; induction a as [|x a IH]; intros st; simpl.
  - destruct (TextDecoder.decode st b); reflexivity.
  - destruct (TextDecoder.step st x) as [st1 o1]. rewrite IH.
    destruct (TextDecoder.decode st1 a) as [st2 o2].
    destruct (TextDecoder.decode st2 b) as [st3 o3].
    rewrite app_assoc. reflexivity.
Qed.

Lemma apply_all_app (u : ui) (es fs : list effect) :
  apply_all u (es ++ fs) = apply_all (apply_all u es) fs.
Proof. apply fold_left_app. Qed.

Lemma apply_all_state_effects (u : ui) (es : list effect) :
  apply_all u (state_effects es) = apply_all u es.
Proof.
  revert u; induction es as [|e es IH]; intros u; [reflexivity|].
  destruct e; simpl; rewrite IH; reflexivity.
Qed.

Lemma state_effects_app (es fs : list effect) :
  state_effects (es ++ fs) = state_effects es ++ state_effects fs.
Proof. apply filter_app. Qed.


(** ** [JSON.parse] does not depend on its fuel *)

Lemma skip_ws_length (s : jsstring) :
  (List.length (skip_ws s) <= List.length s)%nat.
Proof.
  induction s as [|c s IH]; simpl; [lia|].
  destruct (is_ws c); simpl; lia.
Qed.

Lemma parse_chars_length (s str rest : jsstring) :
  parse_chars s = Some (str, rest) -> (List.length rest < List.length s)%nat.
Proof.
  remember (List.length s) as n eqn:Hn.
  revert s str rest Hn.
  induction n as [n IH] using lt_wf_ind. intros s str rest Hn H.
  destruct s as [|c s1]; [discriminate|]. simpl in *.
  assert (Hrec : forall u t, (List.length t < n)%nat ->
            cons_char u (parse_chars t) = Some (str, rest) ->
            (List.length rest < List.length t)%nat).
  { intros u t Ht E. destruct (parse_chars t) as [[x y]|] eqn:P;
      [|discriminate].
    injection E as _ <-. exact (IH _ Ht t x y eq_refl P). }
  subst n.
  destruct (c =? QUOTE).
  - injection H as _ <-. lia.
  - destruct (c =? BACKSLASH).
    + destruct s1 as [|e s2]; [discriminate|]. simpl in *.
      match type of H with (if ?b then _ else _) = _ => destruct b end.
      * destruct s2 as [|h1 [|h2 [|h3 [|h4 s3]]]]; try discriminate.
        destruct (hex4 h1 h2 h3 h4); [|discriminate].
        simpl in *. specialize (Hrec _ s3 ltac:(lia) H). lia.
      * destruct (escape e); [|discriminate].
        specialize (Hrec _ s2 ltac:(lia) H). lia.
    + destruct (c <? 32); [discriminate|].
      specialize (Hrec _ s1 ltac:(lia) H). lia.
Qed.

Lemma digits_length (s : jsstring) :
  (List.length (snd (digits s)) + List.length (fst (digits s))
   = List.length s)%nat.
Proof.
  induction s as [|c s IH]; simpl; [reflexivity|].
  destruct (is_digit c); simpl; [|lia].
  destruct (digits s) as [ds rest]; simpl in *. lia.
Qed.

Lemma parse_fraction_length (s rest : jsstring) (fs : list N) :
  parse_fraction s = Some (fs, rest) -> (List.length rest <= List.length s)%nat.
Proof.
  unfold parse_fraction. destruct s as [|c s1]; [intros [= _ <-]; lia|].
  destruct (c =? ch "."); [|intros [= _ <-]; lia].
  pose proof (digits_length s1) as L.
  destruct (digits s1) as [[|d ds] r]; [discriminate|].
  intros [= _ <-]. simpl in *. lia.
Qed.

Lemma parse_exponent_length (s rest : jsstring) (e : Z) :
  parse_exponent s = Some (e, rest) -> (List.length rest <= List.length s)%nat.
Proof.
  unfold parse_exponent. destruct s as [|c s1]; [intros [= _ <-]; lia|].
  destruct ((c =? ch "e") || (c =? ch "E")); [|intros [= _ <-]; lia].
  assert (Hd : forall t (f : list N -> Z),
            (List.length t <= List.length s1)%nat ->
            (let (ds, r) := digits t in
             match ds with
             | [] => None
             | _ :: _ => Some (f ds, r)
             end) = Some (e, rest) ->
            (List.length rest <= S (List.length s1))%nat).
  { intros t f Ht. pose proof (digits_length t) as L.
    destruct (digits t) as [[|d ds] r']; [discriminate|].
    intros [= _ <-]. simpl in *. lia. }
  destruct s1 as [|g r]; [discriminate|].
  destruct (g =? ch "-"); [|destruct (g =? ch "+")]; cbv beta iota zeta;
    intros H; apply Hd in H; simpl in *; lia.
Qed.

Lemma parse_number_length (s rest : jsstring) (n : number) :
  parse_number s = Some (n, rest) -> (List.length rest < List.length s)%nat.
Proof.
  unfold parse_number.
  set (neg_s1 := match s with
                 | c :: r => if c =? ch "-" then (true, r) else (false, s)
                 | [] => (false, s)
                 end).
  assert (Hs1 : (List.length (snd neg_s1) <= List.length s)%nat).
  { unfold neg_s1. destruct s as [|c r]; [simpl; lia|].
    destruct (c =? ch "-"); simpl; lia. }
  destruct neg_s1 as [neg s1]. simpl in Hs1.
  pose proof (digits_length s1) as L.
  destruct (digits s1) as [[|d ds] s2]; [discriminate|].
  destruct ((d =? 0) && negb (Nat.eqb (List.length ds) 0)); [discriminate|].
  destruct (parse_fraction s2) as [[fs s3]|] eqn:F; [|discriminate].
  apply parse_fraction_length in F.
  destruct (parse_exponent s3) as [[e s4]|] eqn:E; [|discriminate].
  apply parse_exponent_length in E.
  intros [= _ <-]. simpl in *. lia.
Qed.

Lemma parse_scalar_length (s rest : jsstring) (v : value) :
  parse_scalar s = Some (v, rest) -> (List.length rest < List.length s)%nat.
Proof.
  unfold parse_scalar. destruct s as [|c s1]; [discriminate|].
  destruct (c =? QUOTE).
  - destruct (parse_chars s1) as [[str r]|] eqn:P; [|discriminate].
    apply parse_chars_length in P. intros [= _ <-]. simpl. lia.
  - repeat match goal with
           | |- context [if startsWith ?a ?b then _ else _] =>
               destruct (startsWith a b)
           end;
      try match goal with
          | |- Some (_, skipn ?k ?l) = _ -> _ =>
              pose proof (length_skipn k l) as L;
              generalize dependent (skipn k l); intros r L [= _ <-];
              simpl in L |- *; lia
          end.
    destruct (parse_number (c :: s1)) as [[x r]|] eqn:P; [|discriminate].
    apply parse_number_length in P. intros [= _ <-]. exact P.
Qed.

Lemma parse_fuel (n : nat) :
  (forall s v rest, parse_value n s = Some (v, rest) ->
     (List.length rest < List.length s)%nat
     /\ forall m, (2 * (List.length s - List.length rest) <= m)%nat ->
                  parse_value m s = Some (v, rest))
  /\ (forall s acc v rest, parse_elements n s acc = Some (v, rest) ->
     (List.length rest < List.length s)%nat
     /\ forall m, (2 * (List.length s - List.length rest) <= m)%nat ->
                  parse_elements m s acc = Some (v, rest))
  /\ (forall s acc v rest, parse_members n s acc = Some (v, rest) ->
     (List.length rest < List.length s)%nat
     /\ forall m, (2 * (List.length s - List.length rest) <= m)%nat ->
                  parse_members m s acc = Some (v, rest)).
Proof.
  induction n as [|n [IHv [IHe IHm]]];
    [repeat split; intros; discriminate|].
  split; [|split].
  - intros s v rest H. cbn [parse_value] in H.
    pose proof (skip_ws_length s) as Ls.
    destruct (skip_ws s) as [|c s1] eqn:Es; [discriminate|].
    assert (Hrun : forall m, parse_value (S m) s =
      if c =? ch "{" then
        match skip_ws s1 with
        | c' :: s2 =>
            if c' =? ch "}" then Some (JObject [], s2)
            else parse_members m s1 []
        | [] => None
        end
      else if c =? ch "[" then
        match skip_ws s1 with
        | c' :: s2 =>
            if c' =? ch "]" then Some (JArray [], s2)
            else parse_elements m s1 []
        | [] => None
        end
      else parse_scalar (c :: s1)).
    { intros m. cbn [parse_value]. rewrite Es. reflexivity. }
    pose proof (skip_ws_length s1) as Ls1. simpl in Ls.
    destruct (c =? ch "{"); [|destruct (c =? ch "[")].
    + destruct (skip_ws s1) as [|c' s2] eqn:Es1; [discriminate|].
      simpl in Ls1. destruct (c' =? ch "}").
      * injection H as <- <-. split; [lia|].
        intros [|m] Hm; [lia|]. rewrite Hrun. reflexivity.
      * destruct (IHm _ _ _ _ H) as [L M]. split; [lia|].
        intros [|m] Hm; [lia|]. rewrite Hrun. apply M. lia.
    + destruct (skip_ws s1) as [|c' s2] eqn:Es1; [discriminate|].
      simpl in Ls1. destruct (c' =? ch "]").
      * injection H as <- <-. split; [lia|].
        intros [|m] Hm; [lia|]. rewrite Hrun. reflexivity.
      * destruct (IHe _ _ _ _ H) as [L M]. split; [lia|].
        intros [|m] Hm; [lia|]. rewrite Hrun. apply M. lia.
    + pose proof (parse_scalar_length _ _ _ H) as L. simpl in L.
      split; [lia|]. intros [|m] Hm; [lia|]. rewrite Hrun. exact H.
  - intros s acc v rest H. cbn [parse_elements] in H.
    destruct (parse_value n s) as [[v1 s1]|] eqn:E1; [|discriminate].
    destruct (IHv _ _ _ E1) as [L1 M1].
    pose proof (skip_ws_length s1) as Ls1.
    destruct (skip_ws s1) as [|c s2] eqn:Es1; [discriminate|].
    simpl in Ls1.
    assert (Hrun : forall m,
      (2 * (List.length s - List.length s1) <= m)%nat ->
      parse_elements (S m) s acc =
      if c =? ch "," then parse_elements m s2 (v1 :: acc)
      else if c =? ch "]" then Some (JArray (rev (v1 :: acc)), s2)
      else None).
    { intros m Hm. cbn [parse_elements]. rewrite (M1 m Hm), Es1.
      reflexivity. }
    destruct (c =? ch ","); [|destruct (c =? ch "]"); [|discriminate]].
    + destruct (IHe _ _ _ _ H) as [L2 M2]. split; [lia|].
      intros [|m] Hm; [lia|]. rewrite Hrun by lia. apply M2. lia.
    + injection H as <- <-. split; [lia|].
      intros [|m] Hm; [lia|]. rewrite Hrun by lia. reflexivity.
  - intros s acc v rest H. cbn [parse_members] in H.
    pose proof (skip_ws_length s) as Ls.
    destruct (skip_ws s) as [|q s1] eqn:Es; [discriminate|]. simpl in Ls.
    destruct (q =? QUOTE) eqn:Eq; [|discriminate].
    destruct (parse_chars s1) as [[key s2]|] eqn:Ek; [|discriminate].
    pose proof (parse_chars_length _ _ _ Ek) as Lk.
    pose proof (skip_ws_length s2) as Ls2.
    destruct (skip_ws s2) as [|c s3] eqn:Es2; [discriminate|]. simpl in Ls2.
    destruct (c =? ch ":") eqn:Ec; [|discriminate].
    destruct (parse_value n s3) as [[v1 s4]|] eqn:E1; [|discriminate].
    destruct (IHv _ _ _ E1) as [L1 M1].
    pose proof (skip_ws_length s4) as Ls4.
    destruct (skip_ws s4) as [|d s5] eqn:Es4; [discriminate|]. simpl in Ls4.
    assert (Hrun : forall m,
      (2 * (List.length s3 - List.length s4) <= m)%nat ->
      parse_members (S m) s acc =
      if d =? ch "," then parse_members m s5 ((key, v1) :: acc)
      else if d =? ch "}" then Some (JObject (rev ((key, v1) :: acc)), s5)
      else None).
    { intros m Hm. cbn [parse_members].
      rewrite Es, Eq, Ek, Es2, Ec, (M1 m Hm), Es4. reflexivity. }
    destruct (d =? ch ","); [|destruct (d =? ch "}"); [|discriminate]].
    + destruct (IHm _ _ _ _ H) as [L2 M2]. split; [lia|].
      intros [|m] Hm; [lia|]. rewrite Hrun by lia. apply M2. lia.
    + injection H as <- <-. split; [lia|].
      intros [|m] Hm; [lia|]. rewrite Hrun by lia. reflexivity.
Qed.

(** The fuel [JSON.parse] starts with is enough for every text: more fuel
    parses nothing more. *)
Lemma parse_fuel_adequate (n : nat) (text rest : jsstring) (v : value) :
  parse_value n text = Some (v, rest) ->
  parse_value (2 * List.length text + 2) text = Some (v, rest).
Proof.
  intros H. destruct (parse_fuel n) as [Hv _].
  destruct (Hv _ _ _ H) as [_ M]. apply M. lia.
Qed.

(** So a text that [parse] rejects has no value in front followed by white
    space only, whatever the allowance. *)
Lemma parse_rejects (n : nat) (text : jsstring) :
  JSON.parse text = None ->
  match parse_value n text with
  | Some (_, rest) => skip_ws rest <> []
  | None => True
  end.
Proof.
  unfold JSON.parse. intros H.
  destruct (parse_value n text) as [[v rest]|] eqn:E; [|exact I].
  rewrite (parse_fuel_adequate _ _ _ _ E) in H.
  destruct (skip_ws rest); [discriminate|discriminate].
Qed.

(** ** Facts about the read loop *)

Lemma after_pop_app (xs ys : list jsstring) :
  ys <> [] -> after_pop (xs ++ ys) = xs ++ after_pop ys.
Proof. apply removelast_app. Qed.

Lemma pop_or_empty_app (xs ys : list jsstring) :
  ys <> [] -> pop_or_empty (xs ++ ys) = pop_or_empty ys.
Proof.
  unfold pop_or_empty. intros Hne.
  induction xs as [|x xs IH]; [reflexivity|].
  simpl. destruct (xs ++ ys) eqn:E; [|exact IH].
  apply app_eq_nil in E as [_ ->]. contradiction.
Qed.

(** What [pop] leaves in the buffer holds no line feed. *)
Lemma buffer_has_no_line (s : jsstring) :
  split_lines (pop_or_empty (split_lines s)) = [pop_or_empty (split_lines s)].
Proof.
  pose proof (split_lines_app s []) as H.
  rewrite !app_nil_r in H.
  pose proof (split_lines_nonempty s) as Hne.
  rewrite (app_removelast_last [] Hne) in H at 1.
  unfold after_pop, pop_or_empty in *.
  apply app_inv_head in H. symmetry. exact H.
Qed.

Lemma process_lines_app (xs ys : list jsstring) :
  process_lines (xs ++ ys) =
  match process_lines xs with
  | (es, Return) => (es, Return)
  | (es, Continue) => let (es', c) := process_lines ys in (es ++ es', c)
  end.
Proof.
  induction xs as [|x xs IH]; simpl.
  - destruct (process_lines ys); reflexivity.
  - destruct (process_line x) as [e [|]]; [|reflexivity].
    rewrite IH. destruct (process_lines xs) as [es [|]]; [|reflexivity].
    destruct (process_lines ys) as [es' c]. rewrite app_assoc. reflexivity.
Qed.

Lemma resume_all_Finished (ss : list settlement) :
  resume_all Finished ss = ([], Finished).
Proof. induction ss as [|s ss IH]; simpl; [|rewrite IH]; reflexivity. Qed.

Lemma resume_all_app (h : handler) (xs ys : list settlement) :
  resume_all h (xs ++ ys) =
  let (es, h1) := resume_all h xs in
  let (es', h2) := resume_all h1 ys in
  (es ++ es', h2).
Proof.
  revert h; induction xs as [|x xs IH]; intros h; simpl.
  - destruct (resume_all h ys); reflexivity.
  - destruct (resume h x) as [e h1]. rewrite IH.
    destruct (resume_all h1 xs) as [es h2].
    destruct (resume_all h2 ys) as [es' h3].
    rewrite app_assoc. reflexivity.
Qed.


(** The loop with its carry-over buffer computes what one pass over the
    undivided text computes. *)
Lemma read_loop_spec (values : list (list byte)) (rd : reader) :
  split_lines (buffer rd) = [buffer rd] ->
  (state_effects (fst (resume_all (AwaitRead rd) (chunks values))),
   snd (resume_all (AwaitRead rd) (chunks values))) = loop_result rd values.
Proof.
  revert rd; induction values as [|v vs IH]; intros [dec buf] Hbuf;
    unfold loop_result; simpl in *.
  - rewrite app_nil_r, Hbuf. reflexivity.
  - rewrite decode_app.
    destruct (TextDecoder.decode dec v) as [d1 t1] eqn:E1.
    set (lines1 := split_lines (buf ++ t1)).
    specialize (IH {| decoder := d1; buffer := pop_or_empty lines1 |}
                   (buffer_has_no_line _)).
    unfold loop_result in IH; simpl in IH.
    destruct (TextDecoder.decode d1 (List.concat vs)) as [d2 t2] eqn:E2.
    replace (split_lines (buf ++ t1 ++ t2))
      with (after_pop lines1 ++ split_lines (pop_or_empty lines1 ++ t2))
      by (unfold lines1; rewrite <- split_lines_app, <- app_assoc; reflexivity).
    rewrite after_pop_app, pop_or_empty_app by apply split_lines_nonempty.
    rewrite process_lines_app.
    destruct (process_lines (after_pop lines1)) as [e1 [|]] eqn:P1.
    + destruct (resume_all _ (chunks vs)) as [es' h'] eqn:R.
      simpl in IH |- *.
      destruct (process_lines
                  (after_pop (split_lines (pop_or_empty lines1 ++ t2))))
        as [e2 [|]]; injection IH as IHe IHh; subst h';
        rewrite !state_effects_app, IHe; try rewrite app_assoc; reflexivity.
    + rewrite resume_all_Finished. simpl.
      rewrite app_nil_r, state_effects_app. reflexivity.
Qed.


(** ** Facts about one line *)

(** The effect of a line on the state, read off its payload. *)
Lemma process_line_spec (line : jsstring) :
  (state_effects (fst (process_line line)), snd (process_line line)) =
  if recognized line then
    if eqb (dataStr_of line) SENTINEL then ([setLoading false], Return)
    else if truthy (field line (lit "done")) then ([setLoading false], Return)
    else if truthy (field line (lit "error")) then
      ([setResponse_append (error_notice (ToString (field line (lit "error"))));
        setLoading false], Return)
    else if truthy (field line (lit "content")) then
      ([setResponse_append (ToString (field line (lit "content")))], Continue)
    else ([], Continue)
  else ([], Continue).
Proof.
  unfold process_line, recognized, try_data, field, dataStr_of.
  destruct (startsWith line PREFIX).
  - destruct (eqb (trim (slice 6 line)) SENTINEL); [reflexivity|].
    destruct (JSON.parse (trim (slice 6 line))) as [[| | | | |members]|];
      try reflexivity.
    cbn [property].
    destruct (truthy (Get members (lit "done"))); [reflexivity|].
    destruct (truthy (Get members (lit "error"))); [reflexivity|].
    destruct (truthy (Get members (lit "content"))); reflexivity.
  - destruct (eqb (trim line) []); [reflexivity|].
    destruct (startsWith line (lit "event:") || startsWith line (lit "id:")
              || startsWith line (lit "retry:")); reflexivity.
Qed.

Lemma process_line_control (line : jsstring) :
  snd (process_line line) = if is_terminal line then Return else Continue.
Proof.
  pose proof (process_line_spec line) as H.
  apply (f_equal snd) in H; simpl in H. rewrite H. unfold is_terminal.
  destruct (recognized line); [|reflexivity].
  destruct (eqb (dataStr_of line) SENTINEL); [reflexivity|].
  destruct (truthy (field line (lit "done"))); [reflexivity|].
  destruct (truthy (field line (lit "error"))); [reflexivity|].
  destruct (truthy (field line (lit "content"))); reflexivity.
Qed.

(** A line that does not end the stream adds its content and nothing else. *)
Lemma process_line_live (line : jsstring) (u : ui) :
  is_terminal line = false ->
  apply_all u (fst (process_line line)) =
  {| response := response u ++ content_of line; loading := loading u |}.
Proof.
  intros Ht. rewrite <- apply_all_state_effects.
  pose proof (process_line_spec line) as H.
  apply (f_equal fst) in H; simpl in H. rewrite H. clear H.
  unfold is_terminal, content_of in *.
  destruct (recognized line); simpl in *.
  - destruct (eqb (dataStr_of line) SENTINEL); [discriminate|].
    destruct (truthy (field line (lit "done"))); [discriminate|].
    destruct (truthy (field line (lit "error"))); [discriminate|].
    destruct (truthy (field line (lit "content"))); simpl;
      [|rewrite app_nil_r; destruct u]; reflexivity.
  - rewrite app_nil_r; destruct u; reflexivity.
Qed.

(** A line that ends the stream leaves the loading flag false. *)
Lemma process_line_terminal (line : jsstring) (u : ui) :
  is_terminal line = true ->
  loading (apply_all u (fst (process_line line))) = false.
Proof.
  intros Ht. rewrite <- apply_all_state_effects.
  pose proof (process_line_spec line) as H.
  apply (f_equal fst) in H; simpl in H. rewrite H. clear H.
  unfold is_terminal in Ht.
  destruct (recognized line); [|discriminate].
  destruct (eqb (dataStr_of line) SENTINEL); [reflexivity|].
  destruct (truthy (field line (lit "done"))); [reflexivity|].
  destruct (truthy (field line (lit "error"))); [reflexivity|discriminate].
Qed.

(** ** Facts about a run of lines *)

Lemma process_lines_live (lines : list jsstring) (u : ui) :
  existsb is_terminal lines = false ->
  snd (process_lines lines) = Continue
  /\ apply_all u (fst (process_lines lines)) =
     {| response := response u ++ List.concat (map content_of lines);
        loading := loading u |}.
Proof.
  revert u; induction lines as [|line lines IH]; intros u H; simpl in *.
  - rewrite app_nil_r. destruct u; auto.
  - apply orb_false_iff in H as [Hl Hr].
    pose proof (process_line_control line) as Hc. rewrite Hl in Hc.
    pose proof (process_line_live line u Hl) as Hs.
    destruct (process_line line) as [es c]; simpl in Hc, Hs; subst c.
    destruct (IH (apply_all u es) Hr) as [IHc IHs].
    destruct (process_lines lines) as [es' c']; simpl in *.
    split; [exact IHc|].
    rewrite apply_all_app, IHs, Hs; simpl. rewrite app_assoc. reflexivity.
Qed.

Lemma process_lines_returned (lines : list jsstring) (u : ui) :
  snd (process_lines lines) = Return ->
  loading (apply_all u (fst (process_lines lines))) = false.
Proof.
  revert u; induction lines as [|line lines IH]; intros u; simpl;
    [discriminate|].
  pose proof (process_line_control line) as Hc.
  pose proof (process_line_terminal line u) as Ht.
  destruct (process_line line) as [es [|]]; simpl in *.
  - specialize (IH (apply_all u es)).
    destruct (process_lines lines) as [es' c']; simpl in *.
    intros ->. rewrite apply_all_app. auto.
  - intros _. apply Ht. destruct (is_terminal line); congruence.
Qed.

(** Nothing after a terminal line is looked at. *)
Lemma process_lines_stop (pre post : list jsstring) (line : jsstring) :
  is_terminal line = true ->
  process_lines (pre ++ line :: post) = process_lines (pre ++ [line])
  /\ snd (process_lines (pre ++ [line])) = Return.
Proof.
  intros Ht. rewrite !process_lines_app.
  pose proof (process_line_control line) as Hc. rewrite Ht in Hc.
  destruct (process_lines pre) as [es [|]]; [|auto].
  simpl. destruct (process_line line) as [e c]; simpl in Hc; subst c. auto.
Qed.

Lemma process_lines_reach (pre : list jsstring) (line : jsstring) (u : ui) :
  existsb is_terminal pre = false ->
  apply_all u (fst (process_lines (pre ++ [line]))) =
  apply_all (apply_all u (fst (process_lines pre))) (fst (process_line line)).
Proof.
  intros Hpre. rewrite process_lines_app.
  destruct (process_lines_live pre u Hpre) as [Hc _].
  destruct (process_lines pre) as [es c]; simpl in Hc; subst c.
  simpl. destruct (process_line line) as [e [|]]; simpl;
    rewrite ?app_nil_r; apply apply_all_app.
Qed.

(** ** Facts about one request *)

Lemma replace_last (hs : list handler) (h h' : handler) :
  replace (List.length hs) h' (hs ++ [h]) = hs ++ [h'].
Proof. induction hs as [|x hs IH]; simpl; [|rewrite IH]; reflexivity. Qed.

Lemma nth_error_last (hs : list handler) (h : handler) :
  nth_error (hs ++ [h]) (List.length hs) = Some h.
Proof. induction hs as [|x hs IH]; simpl; [reflexivity | exact IH]. Qed.

(** Settlements delivered to the last handler only. *)
Lemma run_last (u : ui) (c : option nat) (ab : list nat)
  (ps : list jsstring) (hs : list handler) (h : handler)
  (ss : list settlement) :
  run {| state := u; abortControllerRef := c; aborted := ab;
         handlers := hs ++ [h]; posted := ps |}
      (map (Settle (List.length hs)) ss) =
  {| state := apply_all u (fst (resume_all h ss));
     abortControllerRef := c; aborted := ab;
     handlers := hs ++ [snd (resume_all h ss)]; posted := ps |}.
Proof.
  unfold run. revert u h; induction ss as [|s ss IH]; intros u h;
    [reflexivity|].
  simpl. rewrite nth_error_last.
  destruct (resume h s) as [es h1]. rewrite replace_last, IH.
  destruct (resume_all h1 ss) as [es' h2]. simpl.
  rewrite apply_all_app. reflexivity.
Qed.

Lemma run_request (w : world) (query : jsstring) (reads : list settlement) :
  eqb (trim query) [] = false ->
  run w (request w query reads) =
  {| state := apply_all submitted
                (fst (resume_all (AwaitRead fresh_reader) reads));
     abortControllerRef := Some (List.length (handlers w));
     aborted := match abortControllerRef w with
                | Some c => c :: aborted w
                | None => aborted w
                end;
     handlers := handlers w ++ [snd (resume_all (AwaitRead fresh_reader) reads)];
     posted := posted w ++ [query] |}.
Proof.
  intros Hq. unfold request, run. simpl. unfold handleSubmit. rewrite Hq.
  simpl. rewrite nth_error_last. simpl. rewrite replace_last.
  exact (run_last _ _ _ _ _ _ _).
Qed.

(** The state after the chunks [values], on the undivided text. *)
Lemma request_open (w : world) (query : jsstring)
  (values : list (list byte)) :
  eqb (trim query) [] = false ->
  state (run w (request w query (chunks values))) =
  ui_after_lines (complete_lines (received_text values)).
Proof.
  intros Hq. rewrite (run_request _ _ _ Hq). simpl.
  pose proof (read_loop_spec values fresh_reader eq_refl) as H.
  unfold loop_result, received_text, complete_lines, ui_after_lines in *.
  simpl in H.
  destruct (TextDecoder.decode TextDecoder.initial (List.concat values))
    as [dec text]; simpl in *.
  rewrite <- apply_all_state_effects.
  pose proof (process_lines_returned (after_pop (split_lines text)) submitted)
    as Hret.
  destruct (process_lines (after_pop (split_lines text))) as [es [|]];
    injection H as He Hh; rewrite He; simpl in *.
  - apply apply_all_state_effects.
  - rewrite apply_all_app, apply_all_state_effects. simpl.
    specialize (Hret eq_refl). destruct (apply_all submitted es); simpl in *.
    rewrite Hret. reflexivity.
Qed.

Lemma request_ignored (w : world) (query : jsstring)
  (reads : list settlement) :
  eqb (trim query) [] = true -> run w (request w query reads) = w.
Proof.
  intros Hq. unfold request, run. simpl. unfold handleSubmit. rewrite Hq.
  assert (Hnone : nth_error (handlers w) (List.length (handlers w)) = None)
    by (apply nth_error_None; apply Nat.le_refl).
  rewrite Hnone.
  induction reads as [|s ss IH]; [reflexivity|].
  simpl. rewrite Hnone. exact IH.
Qed.

(** Once the handler has returned, what the transport still delivers is
    not read. *)
Lemma request_returned (w : world) (query : jsstring)
  (values : list (list byte)) (tail : list settlement) :
  eqb (trim query) [] = false ->
  snd (process_lines (complete_lines (received_text values))) = Return ->
  run w (request w query (chunks values ++ tail)) =
  run w (request w query (chunks values))
  /\ handlers (run w (request w query (chunks values))) =
     handlers w ++ [Finished].
Proof.
  intros Hq Hret. rewrite !(run_request _ _ _ Hq), resume_all_app.
  pose proof (read_loop_spec values fresh_reader eq_refl) as H.
  unfold loop_result, received_text, complete_lines in *. simpl in H.
  destruct (TextDecoder.decode TextDecoder.initial (List.concat values))
    as [dec text]; simpl in *.
  destruct (process_lines (after_pop (split_lines text))) as [es c];
    simpl in Hret; subst c.
  destruct (resume_all (AwaitRead fresh_reader) (chunks values)) as [es1 h1].
  injection H as _ ->. rewrite resume_all_Finished. simpl.
  rewrite app_nil_r. auto.
Qed.

Lemma request_live (w : world) (query : jsstring)
  (values : list (list byte)) :
  eqb (trim query) [] = false ->
  snd (process_lines (complete_lines (received_text values))) = Continue ->
  handlers (run w (request w query (chunks values))) =
  handlers w ++
  [AwaitRead
     {| decoder := fst (TextDecoder.decode TextDecoder.initial
                          (List.concat values));
        buffer := pop_or_empty (split_lines (received_text values)) |}].
Proof.
  intros Hq Hc. rewrite (run_request _ _ _ Hq). simpl.
  pose proof (read_loop_spec values fresh_reader eq_refl) as H.
  unfold loop_result, received_text, complete_lines in *. simpl in H.
  destruct (TextDecoder.decode TextDecoder.initial (List.concat values))
    as [dec text]; simpl in *.
  destruct (process_lines (after_pop (split_lines text))) as [es c];
    simpl in Hc; subst c.
  injection H as _ ->. reflexivity.
Qed.

(** The state once the transport has reported the end of the stream. *)
Lemma request_closed (w0 : world) (query : jsstring)
  (values : list (list byte)) :
  eqb (trim query) [] = false ->
  let w := run w0 (request w0 query (chunks values ++ [read_done])) in
  state w =
  {| response :=
       response (ui_after_lines (complete_lines (received_text values)));
     loading := false |}
  /\ handlers w = handlers w0 ++ [Finished].
Proof.
  intros Hq w; subst w.
  destruct (snd (process_lines (complete_lines (received_text values))))
    eqn:Hc.
  - pose proof (request_live w0 _ _ Hq Hc) as Hh.
    pose proof (request_open w0 _ values Hq) as Hs.
    rewrite (run_request _ _ _ Hq) in Hh, Hs. rewrite (run_request _ _ _ Hq).
    rewrite resume_all_app. simpl in *.
    destruct (resume_all (AwaitRead fresh_reader) (chunks values)) as [es h].
    simpl in *. apply app_inv_head in Hh. injection Hh as ->. simpl.
    rewrite apply_all_app, Hs. auto.
  - destruct (request_returned w0 _ values [read_done] Hq Hc) as [-> Hh].
    split; [|exact Hh]. rewrite (request_open _ _ _ Hq).
    pose proof (process_lines_returned _ submitted Hc) as Hl.
    unfold ui_after_lines in *.
    destruct (apply_all submitted _); simpl in *. rewrite Hl. reflexivity.
Qed.

Lemma request_closing (w : world) (query : jsstring)
  (values : list (list byte)) (eof : bool) :
  eqb (trim query) [] = false ->
  state (run w (request w query (chunks values ++ closing eof))) =
  let u := ui_after_lines (complete_lines (received_text values)) in
  if eof then {| response := response u; loading := false |} else u.
Proof.
  intros Hq. destruct eof; simpl.
  - apply (request_closed _ _ _ Hq).
  - rewrite app_nil_r. apply (request_open _ _ _ Hq).
Qed.

(** A line without effect on the state that lets the loop go on can be
    struck from the stream. *)
Lemma process_lines_skip (pre post : list jsstring) (line : jsstring) (u : ui) :
  state_effects (fst (process_line line)) = [] ->
  snd (process_line line) = Continue ->
  apply_all u (fst (process_lines (pre ++ line :: post))) =
  apply_all u (fst (process_lines (pre ++ post)))
  /\ snd (process_lines (pre ++ line :: post)) =
     snd (process_lines (pre ++ post)).
Proof.
  intros He Hc. rewrite !process_lines_app.
  destruct (process_lines pre) as [es [|]]; [|auto]. simpl.
  destruct (process_line line) as [e c]; simpl in He, Hc; subst c.
  destruct (process_lines post) as [es' c']; simpl.
  split; [|reflexivity].
  rewrite !apply_all_app. f_equal.
  rewrite <- apply_all_state_effects, He. reflexivity.
Qed.


(** ** The claims about the stream consumer

    Each is stated for a query submitted in an arbitrary state [w0] of the
    component, while the promises of that request, and no others, settle. *)

(** C2. Chunking is transparent: two ways of cutting the same bytes into
    chunks make the consumer issue the same state updates in the same order
    and leave the component, carry-over buffer included, in the same
    condition, whatever the transport delivers next. *)
Theorem chunking_is_transparent (w0 : world) (query : jsstring)
  (values1 values2 : list (list byte)) (tail : list settlement) :
  List.concat values1 = List.concat values2 ->
  state_effects (fst (resume_all (AwaitRead fresh_reader) (chunks values1))) =
  state_effects (fst (resume_all (AwaitRead fresh_reader) (chunks values2)))
  /\ run w0 (request w0 query (chunks values1 ++ tail)) =
     run w0 (request w0 query (chunks values2 ++ tail)).
Proof.
  intros Hcat.
  pose proof (read_loop_spec values1 fresh_reader eq_refl) as H1.
  pose proof (read_loop_spec values2 fresh_reader eq_refl) as H2.
  unfold loop_result in H1, H2. rewrite Hcat in H1. rewrite <- H1 in H2.
  injection H2 as He Hh. split; [symmetry; exact He|].
  destruct (eqb (trim query) []) eqn:Hq.
  - rewrite !request_ignored by exact Hq. reflexivity.
  - rewrite !(run_request _ _ _ Hq), !resume_all_app.
    destruct (resume_all (AwaitRead fresh_reader) (chunks values1)) as [e1 h1].
    destruct (resume_all (AwaitRead fresh_reader) (chunks values2)) as [e2 h2].
    simpl in He, Hh. subst h2.
    destruct (resume_all h1 tail) as [et ht]. simpl.
    rewrite !apply_all_app.
    rewrite <- (apply_all_state_effects _ e1), <- (apply_all_state_effects _ e2).
    rewrite He. reflexivity.
Qed.

(** C3. A recognized line that carries the sentinel [[DONE]] or a payload
    with [done: true] leaves the loading flag false and ends the
    invocation: the answer is what the lines before it made it, whatever
    lines and chunks follow. *)
Theorem termination_marker_stops_stream (w0 : world) (query : jsstring)
  (values : list (list byte)) (tail : list settlement)
  (pre post : list jsstring) (line : jsstring) :
  eqb (trim query) [] = false ->
  complete_lines (received_text values) = pre ++ line :: post ->
  recognized line = true ->
  dataStr_of line = SENTINEL \/ field line (lit "done") = Some (JBool true) ->
  let w := run w0 (request w0 query (chunks values ++ tail)) in
  (state_effects (fst (process_line line)), snd (process_line line))
  = ([setLoading false], Return)
  /\ loading (state w) = false
  /\ response (state w) = response (ui_after_lines pre)
  /\ handlers w = handlers w0 ++ [Finished].
Proof.
  intros Hq Hlines Hrec Hdone w; subst w.
  assert (Hfx : state_effects (fst (process_line line)) = [setLoading false]
                /\ is_terminal line = true).
  { pose proof (process_line_spec line) as H. unfold is_terminal.
    rewrite Hrec in *. simpl.
    destruct Hdone as [Hs | Hd].
    - rewrite Hs, jsstring_eqb_refl in *. injection H as H _. auto.
    - rewrite Hd in *. simpl in *. rewrite orb_true_r.
      destruct (eqb (dataStr_of line) SENTINEL); injection H as H _; auto. }
  destruct Hfx as [Hfx Hterm].
  split.
  { pose proof (process_line_control line) as Hc. rewrite Hterm in Hc.
    rewrite Hfx, Hc. reflexivity. }
  destruct (process_lines_stop pre post line Hterm) as [Hstop Hret].
  assert (Hr : snd (process_lines (complete_lines (received_text values)))
               = Return) by (rewrite Hlines, Hstop; exact Hret).
  destruct (request_returned w0 _ values tail Hq Hr) as [-> Hh].
  rewrite (request_open _ _ _ Hq), Hlines.
  unfold ui_after_lines. rewrite Hstop.
  split; [apply process_lines_returned; exact Hret|].
  split; [|exact Hh].
  rewrite process_lines_app.
  destruct (process_lines pre) as [es [|]]; [|reflexivity]. simpl.
  pose proof (process_line_control line) as Hc. rewrite Hterm in Hc.
  destruct (process_line line) as [e c]; simpl in Hc, Hfx. subst c. simpl.
  rewrite apply_all_app, <- (apply_all_state_effects _ e), Hfx. reflexivity.
Qed.

(** C4. When the transport reports the end of a stream in which no
    complete line was terminal, the loading flag, true until then, becomes
    false, and the answer is the concatenation, in order, of the content of
    the complete lines. *)
Theorem end_of_stream_without_terminal (w0 : world) (query : jsstring)
  (values : list (list byte)) :
  eqb (trim query) [] = false ->
  existsb is_terminal (complete_lines (received_text values)) = false ->
  let before := run w0 (request w0 query (chunks values)) in
  let w := run w0 (request w0 query (chunks values ++ [read_done])) in
  loading (state before) = true
  /\ loading (state w) = false
  /\ response (state w) =
     List.concat (map content_of (complete_lines (received_text values)))
  /\ handlers w = handlers w0 ++ [Finished].
Proof.
  intros Hq Hlive before w; subst before w.
  destruct (process_lines_live _ submitted Hlive) as [_ Hs].
  destruct (request_closed w0 _ values Hq) as [Hst Hh].
  rewrite (request_open _ _ _ Hq), Hst. unfold ui_after_lines. rewrite Hs.
  auto.
Qed.

(** C5, amended. A recognized line, reached while the stream is live,
    whose payload has a truthy [error] (a non-empty message) and no truthy
    [done], appends the notice made of two line feeds, [Error: ] and the
    message, leaves the loading flag false, and ends the invocation. *)
Theorem error_payload_terminates (w0 : world) (query : jsstring)
  (values : list (list byte)) (tail : list settlement)
  (pre post : list jsstring) (line : jsstring) :
  eqb (trim query) [] = false ->
  complete_lines (received_text values) = pre ++ line :: post ->
  existsb is_terminal pre = false ->
  recognized line = true ->
  truthy (field line (lit "done")) = false ->
  truthy (field line (lit "error")) = true ->
  let w := run w0 (request w0 query (chunks values ++ tail)) in
  loading (state w) = false
  /\ response (state w) =
     List.concat (map content_of pre)
     ++ error_notice (ToString (field line (lit "error")))
  /\ handlers w = handlers w0 ++ [Finished].
Proof.
  intros Hq Hlines Hpre Hrec Hdone Herr w; subst w.
  assert (Hterm : is_terminal line = true).
  { unfold is_terminal. rewrite Hrec, Herr, orb_true_r. reflexivity. }
  assert (Hsent : eqb (dataStr_of line) SENTINEL = false).
  { destruct (eqb (dataStr_of line) SENTINEL) eqn:E; [|reflexivity].
    apply jsstring_eqb_eq in E. unfold field in Herr. rewrite E in Herr.
    discriminate. }
  destruct (process_lines_stop pre post line Hterm) as [Hstop Hret].
  assert (Hr : snd (process_lines (complete_lines (received_text values)))
               = Return) by (rewrite Hlines, Hstop; exact Hret).
  destruct (request_returned w0 _ values tail Hq Hr) as [-> Hh].
  rewrite (request_open _ _ _ Hq), Hlines.
  unfold ui_after_lines. rewrite Hstop.
  split; [apply process_lines_returned; exact Hret|].
  split; [|exact Hh].
  rewrite (process_lines_reach _ _ _ Hpre).
  destruct (process_lines_live pre submitted Hpre) as [_ ->].
  rewrite <- apply_all_state_effects.
  pose proof (process_line_spec line) as H.
  rewrite Hrec, Hsent, Hdone, Herr in H. injection H as -> _. reflexivity.
Qed.


(** C6. A recognized line whose payload [JSON.parse] rejects (and which is
    not the sentinel) changes nothing and lets the loop go on, so the
    stream ends in the state of the same stream without that line: the
    lines after it have their usual effect. *)
Theorem malformed_line_is_skipped (w0 : world) (query : jsstring)
  (values1 values2 : list (list byte)) (pre post : list jsstring)
  (bad : jsstring) (eof : bool) :
  complete_lines (received_text values1) = pre ++ bad :: post ->
  complete_lines (received_text values2) = pre ++ post ->
  recognized bad = true ->
  dataStr_of bad <> SENTINEL ->
  JSON.parse (dataStr_of bad) = None ->
  (state_effects (fst (process_line bad)), snd (process_line bad))
  = ([], Continue)
  /\ state (run w0 (request w0 query (chunks values1 ++ closing eof))) =
     state (run w0 (request w0 query (chunks values2 ++ closing eof))).
Proof.
  intros H1 H2 Hrec Hsent Hbad.
  assert (Hline : (state_effects (fst (process_line bad)),
                   snd (process_line bad)) = ([], Continue)).
  { rewrite process_line_spec, Hrec. unfold field. rewrite Hbad.
    destruct (eqb (dataStr_of bad) SENTINEL) eqn:E; [|reflexivity].
    apply jsstring_eqb_eq in E. contradiction. }
  split; [exact Hline|].
  destruct (eqb (trim query) []) eqn:Hq.
  - rewrite !request_ignored by exact Hq. reflexivity.
  - rewrite !(request_closing _ _ _ _ Hq), H1, H2. unfold ui_after_lines.
    injection Hline as He Hc.
    destruct (process_lines_skip pre post bad submitted He Hc) as [-> _].
    reflexivity.
Qed.

Lemma content_line_live (line c : jsstring) :
  content_line line c -> is_terminal line = false /\ content_of line = c.
Proof.
  intros (Hrec & Hc & Hd & He). unfold is_terminal, content_of.
  rewrite Hrec, Hc, Hd, He.
  assert (Hsent : eqb (dataStr_of line) SENTINEL = false).
  { destruct (eqb (dataStr_of line) SENTINEL) eqn:E; [|reflexivity].
    apply jsstring_eqb_eq in E. unfold field in Hc. rewrite E in Hc.
    discriminate. }
  rewrite Hsent. split; [reflexivity|]. destruct c; reflexivity.
Qed.

Lemma carries_live (lines contents : list jsstring) :
  carries lines contents ->
  existsb is_terminal lines = false
  /\ List.concat (map content_of lines) = List.concat contents.
Proof.
  induction 1 as [|line c lines cs Hl _ [IHt IHc]
                  |line lines cs Hl _ [IHt IHc]]; [auto| |].
  - destruct (content_line_live _ _ Hl) as [Ht Hc]. simpl.
    rewrite Ht, IHt, Hc, IHc. auto.
  - assert (Ht : is_terminal line = false)
      by (unfold is_terminal; rewrite Hl; reflexivity).
    assert (Hc : content_of line = [])
      by (unfold content_of; rewrite Hl; reflexivity).
    simpl. rewrite Ht, IHt, Hc, IHc. auto.
Qed.

(** C7. Content payloads are appended as they are: after lines whose
    payloads carry the content strings [c1], ..., [cn], framed or not by
    lines without the prefix, the answer is [c1 ++ ... ++ cn] with nothing
    between, loading while the stream is open and not loading once it
    ends; and the stream [Reven], [ue: $10B], [done] of the spec yields
    [Revenue: $10B] with the loading flag false. *)
Theorem content_is_concatenated (w0 : world) (query : jsstring)
  (values : list (list byte)) (contents : list jsstring) :
  eqb (trim query) [] = false ->
  carries (complete_lines (received_text values)) contents ->
  state (run w0 (request w0 query (chunks values))) =
    {| response := List.concat contents; loading := true |}
  /\ state (run w0 (request w0 query (chunks values ++ [read_done]))) =
    {| response := List.concat contents; loading := false |}
  /\ state (run mounted (request mounted Scenario.q1 (chunks Scenario.revenue))) =
    {| response := lit "Revenue: $10B"; loading := false |}.
Proof.
  intros Hq Hlines. destruct (carries_live _ _ Hlines) as [Hlive Hcat].
  destruct (process_lines_live _ submitted Hlive) as [_ Hs].
  destruct (request_closed w0 _ values Hq) as [Hst _].
  rewrite (request_open _ _ _ Hq), Hst. unfold ui_after_lines.
  rewrite Hs, Hcat. split; [reflexivity|]. split; [reflexivity|].
  vm_compute. reflexivity.
Qed.

(** C8. Submitting a query that is empty or made of white space only
    changes nothing: no request is posted, no handler starts, and the
    loading flag, the answer and the abort controller stay as they were. *)
Theorem blank_submit_is_noop (w : world) (query : jsstring) :
  forallb is_white_space query = true ->
  step w (Submit query) = w.
Proof.
  intros H. simpl. unfold handleSubmit.
  rewrite (trim_all_white _ H). reflexivity.
Qed.

(** C9. A complete line that does not start with [data: ] is skipped: the
    loop goes on, nothing is thrown or reported as an error, the state is
    not touched, and striking the line from the stream changes nothing.
    Blank lines and [event:], [id:], [retry:] lines are skipped silently,
    any other line after a [console.log]. *)
Theorem unrecognized_line_is_skipped (line : jsstring) :
  recognized line = false ->
  snd (process_line line) = Continue
  /\ state_effects (fst (process_line line)) = []
  /\ Forall (fun e => e = console log "Unhandled line:") (fst (process_line line))
  /\ (eqb (trim line) [] = true \/ startsWith line (lit "event:") = true
      \/ startsWith line (lit "id:") = true
      \/ startsWith line (lit "retry:") = true ->
      fst (process_line line) = [])
  /\ forall (pre post : list jsstring) (u : ui),
       apply_all u (fst (process_lines (pre ++ line :: post))) =
       apply_all u (fst (process_lines (pre ++ post)))
       /\ snd (process_lines (pre ++ line :: post)) =
          snd (process_lines (pre ++ post)).
Proof.
  intros Hrec.
  assert (H : snd (process_line line) = Continue
              /\ state_effects (fst (process_line line)) = []).
  { pose proof (process_line_spec line) as H. rewrite Hrec in H.
    injection H as He Hc. auto. }
  destruct H as [Hc He].
  split; [exact Hc|]. split; [exact He|].
  split; [|split].
  - unfold process_line. unfold recognized in Hrec. rewrite Hrec.
    destruct (eqb (trim line) []); [constructor|].
    destruct (startsWith line (lit "event:") || startsWith line (lit "id:")
              || startsWith line (lit "retry:")); repeat constructor.
  - unfold process_line. unfold recognized in Hrec. rewrite Hrec.
    intros [-> | [-> | [-> | ->]]]; [reflexivity| | |];
      destruct (eqb (trim line) []); rewrite ?orb_true_r; reflexivity.
  - intros pre post u. apply process_lines_skip; assumption.
Qed.

(** C10. The fields of a payload are looked at in the order [done],
    [error], [content], after the sentinel, and only the first one that is
    set acts: a set [done] ends the stream and appends nothing; failing
    that a set [error] appends its notice and ends the stream; failing both
    a set [content] is appended and the stream goes on. The payload with
    [done: true], [error: x] and [content: y] ends the stream with nothing
    appended. *)
Theorem payload_fields_have_priority (line : jsstring) :
  recognized line = true ->
  let outcome := (state_effects (fst (process_line line)),
                  snd (process_line line)) in
  (dataStr_of line = SENTINEL -> outcome = ([setLoading false], Return))
  /\ (truthy (field line (lit "done")) = true ->
      outcome = ([setLoading false], Return))
  /\ (truthy (field line (lit "done")) = false ->
      truthy (field line (lit "error")) = true ->
      outcome =
      ([setResponse_append (error_notice (ToString (field line (lit "error"))));
        setLoading false], Return))
  /\ (truthy (field line (lit "done")) = false ->
      truthy (field line (lit "error")) = false ->
      truthy (field line (lit "content")) = true ->
      outcome =
      ([setResponse_append (ToString (field line (lit "content")))], Continue))
  /\ (let both := Scenario.text "data: {'done':true,'error':'x','content':'y'}" in
      (state_effects (fst (process_line both)), snd (process_line both))
      = ([setLoading false], Return)).
Proof.
  intros Hrec outcome; subst outcome. rewrite process_line_spec, Hrec.
  assert (Hsent : forall key, truthy (field line key) = true ->
                  eqb (dataStr_of line) SENTINEL = false).
  { intros key Hk. destruct (eqb (dataStr_of line) SENTINEL) eqn:E;
      [|reflexivity].
    apply jsstring_eqb_eq in E. unfold field in Hk. rewrite E in Hk.
    discriminate. }
  split; [|split; [|split; [|split]]].
  - intros ->. rewrite jsstring_eqb_refl. reflexivity.
  - intros Hd. rewrite (Hsent _ Hd), Hd. reflexivity.
  - intros Hd He. rewrite (Hsent _ He), Hd, He. reflexivity.
  - intros Hd He Hc. rewrite (Hsent _ Hc), Hd, He, Hc. reflexivity.
  - vm_compute. reflexivity.
Qed.

(** A handler whose controller was aborted gets its [AbortError] and then
    leaves the answer alone. *)
Lemma aborted_handler_keeps_response (w : world) (i : nat) (s : settlement) :
  existsb (Nat.eqb i) (aborted w) = true ->
  deliverable w (Settle i s) ->
  response (state (step w (Settle i s))) = response (state w).
Proof.
  intros Hab Hdel. simpl in *. rewrite Hab in Hdel.
  destruct (nth_error (handlers w) i) as [h|]; [|reflexivity].
  destruct s as [ok body|[|]| | |[|]]; try discriminate;
    destruct h as [|rd|]; reflexivity.
Qed.


(** [handleSubmit] entered again while a handler is in flight. The form
    never does that, its textarea and its button being disabled as long as
    the flag is raised; called directly, the second invocation aborts the
    first, the platform rejects what the first awaits with [AbortError],
    and the first handler appends nothing but runs its [finally]: the
    loading flag is false while the second request, just posted, is
    awaited. *)
Theorem overtaken_request_clears_loading (q1 q2 : jsstring)
  (received : list settlement) (h : handler) :
  eqb (trim q1) [] = false ->
  eqb (trim q2) [] = false ->
  handlers (run mounted (first_request q1 received)) = [h] ->
  h <> Finished ->
  let w2 := run mounted (first_request q1 received ++ [Submit q2]) in
  let w := step w2 (Settle 0 (abort_rejection h)) in
  deliverable w2 (Settle 0 (abort_rejection h))
  /\ state w2 = {| response := []; loading := true |}
  /\ state w = {| response := []; loading := false |}
  /\ handlers w = [Finished; AwaitFetch]
  /\ posted w = [q1; q2].
Proof.
  intros Hq1 Hq2 Hh Hlive.
  assert (E1 : run mounted (first_request q1 received) =
               {| state := apply_all submitted
                             (fst (resume_all AwaitFetch received));
                  abortControllerRef := Some 0%nat; aborted := [];
                  handlers := [snd (resume_all AwaitFetch received)];
                  posted := [q1] |}).
  { unfold first_request, run. simpl. unfold handleSubmit. rewrite Hq1.
    simpl. exact (run_last _ _ _ _ [] _ _). }
  assert (E2 : run mounted (first_request q1 received ++ [Submit q2]) =
               step (run mounted (first_request q1 received)) (Submit q2)).
  { unfold run. rewrite fold_left_app. reflexivity. }
  rewrite E1 in Hh. injection Hh as Hh.
  cbv zeta. rewrite E2, E1. simpl. unfold handleSubmit. rewrite Hq2, Hh.
  simpl. destruct h as [|rd|]; [| |contradiction]; simpl; auto.
Qed.

(** The run [overtaken] and its sequel: the second stream is read with
    the loading flag false, where the same stream on its own shows it
    true. *)
Lemma overtaking_stream_looks_idle :
  let w := run mounted overtaken in
  let w' := run w (Settle 1 (fetch_response true true)
                   :: map (Settle 1) overtaking) in
  deliverable_all mounted overtaken
  /\ handlers w = [Finished; AwaitFetch]
  /\ state w = {| response := []; loading := false |}
  /\ (exists rd, handlers w' = [Finished; AwaitRead rd])
  /\ state w' = {| response := lit "Meta: "; loading := false |}
  /\ state (run mounted (request mounted Scenario.q2 overtaking)) =
     {| response := lit "Meta: "; loading := true |}.
Proof.
  cbv zeta. split; [|split; [|split; [|split; [|split]]]].
  - vm_compute. repeat split; discriminate.
  - vm_compute. reflexivity.
  - vm_compute. reflexivity.
  - eexists. vm_compute. reflexivity.
  - vm_compute. reflexivity.
  - vm_compute. reflexivity.
Qed.

(** ** More facts about strings *)

Lemma trimStart_head (s r : jsstring) (c : N) :
  trimStart s = c :: r -> is_white_space c = false.
Proof.
  induction s as [|x s IH]; simpl; [discriminate|].
  destruct (is_white_space x) eqn:E; [exact IH|].
  intros [= <- _]. exact E.
Qed.

Lemma trimStart_nil (s : jsstring) :
  trimStart s = [] -> forallb is_white_space s = true.
Proof.
  induction s as [|x s IH]; simpl; [reflexivity|].
  destruct (is_white_space x); [exact IH | discriminate].
Qed.

(** [s.trim()] is empty exactly when [s] is made of white space. *)
Lemma trim_nil_iff (s : jsstring) :
  trim s = [] <-> forallb is_white_space s = true.
Proof.
  split; [|apply trim_all_white].
  unfold trim, trimEnd. intros H.
  apply (f_equal (@rev N)) in H. rewrite rev_involutive in H. simpl in H.
  apply trimStart_nil in H. rewrite forallb_forall in H.
  destruct (trimStart s) as [|c r] eqn:E; [apply trimStart_nil; exact E|].
  pose proof (trimStart_head _ _ _ E) as Hc.
  rewrite (H c) in Hc; [discriminate|].
  apply in_rev. rewrite rev_involutive. left. reflexivity.
Qed.

Lemma trimStart_snoc (s : jsstring) (c : N) :
  is_white_space c = true ->
  trimStart (s ++ [c]) =
  if forallb is_white_space s then [] else trimStart s ++ [c].
Proof.
  intros Hc. induction s as [|x s IH]; simpl; [rewrite Hc; reflexivity|].
  destruct (is_white_space x); [exact IH | reflexivity].
Qed.

(** White space put at the end of a string is trimmed away. *)
Lemma trim_snoc (s : jsstring) (c : N) :
  is_white_space c = true -> trim (s ++ [c]) = trim s.
Proof.
  intros Hc. unfold trim. rewrite (trimStart_snoc _ _ Hc).
  destruct (forallb is_white_space s) eqn:E.
  - rewrite (trimStart_all_white _ E). reflexivity.
  - unfold trimEnd. rewrite rev_app_distr. simpl. rewrite Hc. reflexivity.
Qed.

Lemma startsWith_snoc (s p : jsstring) (c : N) :
  existsb (N.eqb c) p = false ->
  startsWith (s ++ [c]) p = startsWith s p.
Proof.
  revert s; induction p as [|y p IH]; intros s H; [reflexivity|].
  simpl in H. apply orb_false_iff in H as [Hy Hp].
  destruct s as [|x s]; simpl.
  - rewrite Hy. reflexivity.
  - rewrite (IH s Hp). reflexivity.
Qed.

Lemma split_on_nonempty (sep : N) (s : jsstring) : split_on sep s <> [].
Proof.
  destruct s as [|c s]; simpl; [discriminate|].
  destruct (c =? sep); [discriminate|].
  destruct (split_on sep s); discriminate.
Qed.

Lemma split_lines_split_on (s : jsstring) : split_lines s = split_on LF s.
Proof.
  induction s as [|c s IH]; simpl; [reflexivity|]. rewrite IH. reflexivity.
Qed.

(** Joining what was split gives the string back. *)
Lemma join_split (sep : N) (s : jsstring) :
  join_on sep (split_on sep s) = s.
Proof.
  induction s as [|c s IH]; [reflexivity|]. simpl.
  pose proof (split_on_nonempty sep s) as Hne.
  destruct (c =? sep) eqn:E.
  - apply N.eqb_eq in E. subst c.
    destruct (split_on sep s) as [|l ls]; [contradiction|].
    simpl in *. rewrite IH. reflexivity.
  - destruct (split_on sep s) as [|l [|l2 ls]]; [contradiction| |];
      simpl in *; rewrite <- IH; reflexivity.
Qed.

(** The first pieces of a split, joined, are a beginning of the whole. *)
Lemma join_firstn_begins (sep : N) (ls : list jsstring) (k : nat) :
  begins (join_on sep (firstn (S k) ls)) (join_on sep ls).
Proof.
  revert k; induction ls as [|l ls IH]; intros k.
  - exists []. reflexivity.
  - destruct ls as [|l2 ls].
    + exists []. simpl. destruct k; simpl; rewrite app_nil_r; reflexivity.
    + destruct k as [|k].
      * exists (sep :: join_on sep (l2 :: ls)). reflexivity.
      * destruct (IH k) as [rest Hrest].
        exists rest.
        change (firstn (S (S k)) (l :: l2 :: ls))
          with (l :: l2 :: firstn k ls).
        change (firstn (S k) (l2 :: ls)) with (l2 :: firstn k ls) in Hrest.
        change (join_on sep (l :: l2 :: ls))
          with (l ++ sep :: join_on sep (l2 :: ls)).
        change (join_on sep (l :: l2 :: firstn k ls))
          with (l ++ sep :: join_on sep (l2 :: firstn k ls)).
        rewrite Hrest, <- app_assoc. reflexivity.
Qed.

(** ** More facts about the handler *)

Lemma process_lines_continue (lines : list jsstring) :
  snd (process_lines lines) = Continue -> existsb is_terminal lines = false.
Proof.
  induction lines as [|line lines IH]; simpl; [reflexivity|].
  pose proof (process_line_control line) as Hc.
  destruct (process_line line) as [es [|]]; simpl in Hc.
  - destruct (is_terminal line); [discriminate|].
    destruct (process_lines lines) as [es' c]; simpl in *. exact IH.
  - discriminate.
Qed.

(** One settlement either ends the handler with the flag false or leaves
    the flag as it was. *)
Lemma resume_loading (h : handler) (s : settlement) (u : ui) :
  in_flight h = true ->
  loading (apply_all u (fst (resume h s))) =
  if in_flight (snd (resume h s)) then loading u else false.
Proof.
  intros Hh. destruct h as [|rd|]; [| |discriminate]; simpl.
  - destruct s as [[|] [|]|[|]| | |]; reflexivity.
  - destruct s as [ok body|e|value| |[|]]; try reflexivity.
    simpl. destruct (TextDecoder.decode (decoder rd) value) as [dec chunk].
    pose proof (process_lines_continue
                  (after_pop (split_lines (buffer rd ++ chunk)))) as Hc.
    pose proof (process_lines_live
                  (after_pop (split_lines (buffer rd ++ chunk))) u) as Hl.
    destruct (process_lines (after_pop (split_lines (buffer rd ++ chunk))))
      as [es [|]]; simpl in *.
    + destruct (Hl (Hc eq_refl)) as [_ ->]. reflexivity.
    + unfold apply_all. rewrite fold_left_app. reflexivity.
Qed.

Lemma resume_all_loading (ss : list settlement) (h : handler) (u : ui) :
  in_flight h = true ->
  loading (apply_all u (fst (resume_all h ss))) =
  if in_flight (snd (resume_all h ss)) then loading u else false.
Proof.
  revert h u; induction ss as [|s ss IH]; intros h u Hh; simpl.
  - rewrite Hh. reflexivity.
  - pose proof (resume_loading h s u Hh) as H1.
    destruct (resume h s) as [e1 h1]; simpl in H1.
    destruct (in_flight h1) eqn:E1.
    + specialize (IH h1 (apply_all u e1) E1).
      destruct (resume_all h1 ss) as [es' h2]; simpl in *.
      rewrite apply_all_app, IH, H1. reflexivity.
    + destruct h1; try discriminate. rewrite resume_all_Finished. simpl.
      rewrite app_nil_r. exact H1.
Qed.

Lemma run_submission (w : world) (query : jsstring)
  (settled : list settlement) :
  eqb (trim query) [] = false ->
  run w (submission w query settled) =
  {| state := apply_all submitted (fst (resume_all AwaitFetch settled));
     abortControllerRef := Some (List.length (handlers w));
     aborted := match abortControllerRef w with
                | Some c => c :: aborted w
                | None => aborted w
                end;
     handlers := handlers w ++ [snd (resume_all AwaitFetch settled)];
     posted := posted w ++ [query] |}.
Proof.
  intros Hq. unfold submission, run. simpl. unfold handleSubmit. rewrite Hq.
  exact (run_last _ _ _ _ _ _ _).
Qed.

(** ** Submission, failure and cancellation *)

Lemma not_blank (query : jsstring) :
  existsb (fun c => negb (is_white_space c)) query = true ->
  eqb (trim query) [] = false.
Proof.
  intros H. destruct (eqb (trim query) []) eqn:E; [|reflexivity].
  apply jsstring_eqb_eq, trim_nil_iff in E.
  apply existsb_exists in H as (c & Hin & Hc).
  rewrite forallb_forall in E. rewrite (E c Hin) in Hc. discriminate.
Qed.

(** X1. A query with at least one character that is not white space
    passes the guard, whatever the state of the component: the request
    posted carries the query as typed, white space around it included, the
    answer is emptied, the flag is raised, and a new controller becomes
    the current one. *)
Theorem submit_posts_query_as_typed (w : world) (query : jsstring) :
  existsb (fun c => negb (is_white_space c)) query = true ->
  let w' := step w (Submit query) in
  posted w' = posted w ++ [query]
  /\ handlers w' = handlers w ++ [AwaitFetch]
  /\ state w' = {| response := []; loading := true |}
  /\ abortControllerRef w' = Some (List.length (handlers w)).
Proof.
  intros H. simpl. unfold handleSubmit. rewrite (not_blank _ H). simpl. auto.
Qed.

(** X2. A submission starts from a clean slate: the answer and the flag
    after it depend on how its own promises settle and on nothing the
    component did before. *)
Theorem answer_depends_on_own_stream (w1 w2 : world) (query : jsstring)
  (settled : list settlement) :
  eqb (trim query) [] = false ->
  state (run w1 (submission w1 query settled)) =
  state (run w2 (submission w2 query settled))
  /\ last (handlers (run w1 (submission w1 query settled))) Finished =
     last (handlers (run w2 (submission w2 query settled))) Finished.
Proof.
  intros Hq. rewrite !(run_submission _ _ _ Hq). simpl.
  rewrite !last_last. auto.
Qed.

(** X3. However the promises of a submission settle, the loading flag is
    true exactly as long as its handler has not reached the end of
    [handleSubmit]: no path ends with the flag still raised, and none
    lowers it before the end. *)
Theorem loading_while_in_flight (w0 : world) (query : jsstring)
  (settled : list settlement) :
  eqb (trim query) [] = false ->
  let w := run w0 (submission w0 query settled) in
  exists h, handlers w = handlers w0 ++ [h] /\ loading (state w) = in_flight h.
Proof.
  intros Hq w; subst w. rewrite (run_submission _ _ _ Hq). simpl.
  eexists. split; [reflexivity|].
  rewrite (resume_all_loading settled AwaitFetch submitted eq_refl).
  destruct (in_flight (snd (resume_all AwaitFetch settled))); reflexivity.
Qed.

(** X4. A failure that is no cancellation (the request is rejected, the
    status is not ok, the body is missing, a read is rejected) reaching a
    handler in flight replaces whatever answer has been accumulated by
    the apology, lowers the flag and ends the handler. *)
Theorem transport_failure_shows_apology (w0 : world) (query : jsstring)
  (settled : list settlement) (h : handler) (s : settlement) :
  eqb (trim query) [] = false ->
  handlers (run w0 (submission w0 query settled)) = handlers w0 ++ [h] ->
  fails h s = true ->
  let w := run w0 (submission w0 query (settled ++ [s])) in
  state w = {| response := SORRY; loading := false |}
  /\ handlers w = handlers w0 ++ [Finished].
Proof.
  intros Hq Hh Hf w; subst w.
  rewrite (run_submission _ _ _ Hq) in Hh. simpl in Hh.
  apply app_inv_head in Hh. injection Hh as Hh.
  rewrite (run_submission _ _ _ Hq), resume_all_app. simpl.
  destruct (resume_all AwaitFetch settled) as [es h']. simpl in Hh. subst h'.
  destruct h as [|rd|]; [| |discriminate].
  - destruct s as [[|] [|]|[|]| | |]; try discriminate; simpl;
      rewrite apply_all_app; auto.
  - destruct s as [ok body|e|value| |[|]]; try discriminate; simpl.
    rewrite apply_all_app. auto.
Qed.

Lemma releases_app (es fs : list effect) :
  releases (es ++ fs) = (releases es + releases fs)%nat.
Proof. unfold releases. rewrite filter_app. apply length_app. Qed.

Lemma process_lines_release_nothing (lines : list jsstring) :
  releases (fst (process_lines lines)) = 0%nat.
Proof.
  induction lines as [|line lines IH]; [reflexivity|]. simpl.
  assert (H : releases (fst (process_line line)) = 0%nat).
  { unfold process_line, try_data.
    destruct (startsWith line PREFIX).
    - destruct (eqb (trim (slice 6 line)) SENTINEL); [reflexivity|].
      destruct (JSON.parse (trim (slice 6 line))) as [[| | | | |members]|];
        try reflexivity.
      cbn [property].
      destruct (truthy (Get members (lit "done"))); [reflexivity|].
      destruct (truthy (Get members (lit "error"))); [reflexivity|].
      destruct (truthy (Get members (lit "content"))); reflexivity.
    - destruct (eqb (trim line) []); [reflexivity|].
      destruct (startsWith line (lit "event:") || startsWith line (lit "id:")
                || startsWith line (lit "retry:")); reflexivity. }
  destruct (process_line line) as [es [|]]; simpl in *; [|exact H].
  destruct (process_lines lines) as [es' c]; simpl in *.
  rewrite releases_app, H, IH. reflexivity.
Qed.

Lemma resume_releases (rd : reader) (s : settlement) :
  releases (fst (resume (AwaitRead rd) s)) =
  if in_flight (snd (resume (AwaitRead rd) s)) then 0%nat else 1%nat.
Proof.
  destruct s as [ok body|e|value| |[|]]; try reflexivity. simpl.
  destruct (TextDecoder.decode (decoder rd) value) as [dec chunk].
  pose proof (process_lines_release_nothing
                (after_pop (split_lines (buffer rd ++ chunk)))) as H.
  destruct (process_lines (after_pop (split_lines (buffer rd ++ chunk))))
    as [es [|]]; simpl in *.
  - exact H.
  - change (console log "Received chunk:" :: es ++ releaseLock :: finally_outer)
      with ([console log "Received chunk:"] ++ es
            ++ releaseLock :: finally_outer).
    rewrite !releases_app, H. reflexivity.
Qed.

(** X6. The lock on the reader is released exactly once on every path on
    which the handler ends after obtaining the reader (end of stream,
    terminal line, failure, cancellation), never while it is still
    reading, and never twice; a handler that ends without having obtained
    the reader (the request fails, the status is not ok, the body is
    missing) releases nothing. *)
Theorem reader_released_once (ss : list settlement) :
  (forall rd : reader,
     releases (fst (resume_all (AwaitRead rd) ss)) =
     if in_flight (snd (resume_all (AwaitRead rd) ss)) then 0%nat else 1%nat)
  /\ releases (fst (resume_all AwaitFetch ss)) =
     if in_flight (snd (resume_all AwaitFetch ss)) then 0%nat
     else if obtains_reader ss then 1%nat else 0%nat.
Proof.
  assert (Hread : forall ss rd,
     releases (fst (resume_all (AwaitRead rd) ss)) =
     if in_flight (snd (resume_all (AwaitRead rd) ss)) then 0%nat else 1%nat).
  { clear ss. induction ss as [|s ss IH]; intros rd; [reflexivity|].
    cbn [resume_all]. pose proof (resume_releases rd s) as H1.
    destruct (resume (AwaitRead rd) s) as [e1 h1] eqn:E; simpl in H1.
    destruct h1 as [|rd1|]; simpl in H1.
    - exfalso. destruct s as [ok body|e|bytes| |e]; simpl in E;
        try discriminate.
      destruct (TextDecoder.decode (decoder rd) bytes) as [dec chunk].
      destruct (process_lines (after_pop (split_lines (buffer rd ++ chunk))))
        as [es [|]]; discriminate.
    - specialize (IH rd1).
      destruct (resume_all (AwaitRead rd1) ss) as [es' h2]; simpl in *.
      rewrite releases_app, H1, IH. reflexivity.
    - rewrite resume_all_Finished. simpl. rewrite app_nil_r. exact H1. }
  split; [intros rd; apply Hread|].
  induction ss as [|s ss IH]; [reflexivity|].
  cbn [resume_all resume obtains_reader].
  destruct s as [[|] [|]|[|]|bytes| |[|]];
    cbn [after_fetch andb];
    try (rewrite resume_all_Finished; reflexivity);
    try (destruct (resume_all AwaitFetch ss) as [es' h']; exact IH).
  specialize (Hread ss fresh_reader).
  destruct (resume_all (AwaitRead fresh_reader) ss) as [es' h'];
    cbn [fst snd] in *.
  rewrite releases_app, Hread. reflexivity.
Qed.

(** ** The form and the controllers *)

Lemma replace_length (i : nat) (h : handler) (hs : list handler) :
  List.length (replace i h hs) = List.length hs.
Proof.
  revert i; induction hs as [|x hs IH]; intros [|i]; simpl; auto.
Qed.

Lemma nth_error_replace_same (hs : list handler) (i : nat) (h h' : handler) :
  nth_error hs i = Some h -> nth_error (replace i h' hs) i = Some h'.
Proof.
  revert i; induction hs as [|x hs IH]; intros [|i] H; simpl in *;
    try discriminate; auto.
Qed.

Lemma nth_error_replace_other (hs : list handler) (i j : nat) (h' : handler) :
  i <> j -> nth_error (replace i h' hs) j = nth_error hs j.
Proof.
  revert i j; induction hs as [|x hs IH]; intros [|i] [|j] H; simpl;
    try reflexivity; try congruence.
  apply IH. congruence.
Qed.

Lemma in_flight_replace (hs : list handler) (i : nat) (h h' : handler) :
  nth_error hs i = Some h ->
  (List.length (filter in_flight (replace i h' hs))
   + (if in_flight h then 1 else 0) =
   List.length (filter in_flight hs) + (if in_flight h' then 1 else 0))%nat.
Proof.
  revert i; induction hs as [|x hs IH]; intros [|i] H; simpl in *;
    try discriminate.
  - injection H as ->. destruct (in_flight h), (in_flight h'); simpl; lia.
  - specialize (IH i H). destruct (in_flight x); simpl; lia.
Qed.

Lemma in_flight_counted (hs : list handler) (i : nat) (h : handler) :
  nth_error hs i = Some h -> in_flight h = true ->
  (1 <= List.length (filter in_flight hs))%nat.
Proof.
  intros H Hh. apply nth_error_In in H.
  assert (Hin : In h (filter in_flight hs)) by (apply filter_In; auto).
  destruct (filter in_flight hs); [destruct Hin | simpl; lia].
Qed.

Lemma none_in_flight (hs : list handler) (i : nat) (h : handler) :
  List.length (filter in_flight hs) = 0%nat ->
  nth_error hs i = Some h -> h = Finished.
Proof.
  intros H0 H. destruct (in_flight h) eqn:Hh.
  - pose proof (in_flight_counted hs i h H Hh). lia.
  - destruct h; try discriminate. reflexivity.
Qed.

Lemma step_controllers (w : world) (ev : event) :
  controllers_in_order w -> controllers_in_order (step w ev).
Proof.
  intros [Hp Hc]. destruct ev as [query|i s]; simpl.
  - unfold handleSubmit. destruct (eqb (trim query) []); [split; assumption|].
    unfold controllers_in_order. simpl. rewrite !length_app, Hp. simpl.
    split; [reflexivity|].
    replace (List.length (handlers w) + 1)%nat
      with (S (List.length (handlers w))) by lia.
    split; [reflexivity|].
    destruct (List.length (handlers w)) as [|n]; destruct Hc as [-> ->].
    + reflexivity.
    + rewrite seq_S, rev_app_distr. reflexivity.
  - destruct (nth_error (handlers w) i) as [h|]; [|split; assumption].
    destruct (resume h s) as [es h']. unfold controllers_in_order. simpl.
    rewrite replace_length. split; assumption.
Qed.

Lemma run_controllers (evs : list event) (w : world) :
  controllers_in_order w -> controllers_in_order (run w evs).
Proof.
  revert w; induction evs as [|ev evs IH]; intros w H; [exact H|].
  simpl. apply IH, step_controllers, H.
Qed.

(** X7. The bookkeeping of the controllers holds after any sequence of
    submissions and settlements: every submission that passes the guard
    posts one request and starts one handler, the current controller is
    that of the latest of them, and [abort()] has been called once on each
    earlier one, in the order of the submissions, whether or not its
    request had already ended. *)
Theorem controllers_stay_in_order (evs : list event) :
  controllers_in_order (run mounted evs).
Proof.
  apply run_controllers. split; [reflexivity|]. simpl. auto.
Qed.

Lemma step_through_controls (w : world) (ev : event) :
  controllers_in_order w ->
  List.length (filter in_flight (handlers w)) =
    (if loading (state w) then 1 else 0)%nat ->
  (forall i, In i (aborted w) -> nth_error (handlers w) i = Some Finished) ->
  allowed w ev = true ->
  List.length (filter in_flight (handlers (step w ev))) =
    (if loading (state (step w ev)) then 1 else 0)%nat
  /\ (forall i, In i (aborted (step w ev)) ->
      nth_error (handlers (step w ev)) i = Some Finished).
Proof.
  intros [Hp Hc] Hn Ha Hev. destruct ev as [query|i s]; simpl in *.
  - unfold textarea_disabled in Hev.
    destruct (loading (state w)) eqn:Hl; [discriminate|].
    unfold handleSubmit. destruct (eqb (trim query) []).
    { rewrite Hl. split; assumption. }
    simpl. rewrite filter_app, length_app, Hn. split; [reflexivity|].
    assert (Hold : forall i h, nth_error (handlers w) i = Some h ->
                   nth_error (handlers w ++ [AwaitFetch]) i = Some Finished).
    { intros i h Hi. rewrite nth_error_app1
        by (apply nth_error_Some; congruence).
      rewrite Hi, (none_in_flight _ _ _ Hn Hi). reflexivity. }
    intros i Hi.
    destruct (List.length (handlers w)) as [|n] eqn:Hlen;
      destruct Hc as [Hc Hab]; rewrite Hc in Hi.
    + rewrite Hab in Hi. destruct Hi.
    + destruct (nth_error (handlers w) i) as [h|] eqn:E;
        [exact (Hold i h E)|].
      exfalso. apply nth_error_None in E. rewrite Hlen in E.
      destruct Hi as [<-|Hi]; [lia|].
      rewrite Hab in Hi. apply in_rev, in_seq in Hi. lia.
  - destruct (nth_error (handlers w) i) as [h|] eqn:E; [|split; assumption].
    pose proof (resume_loading h s (state w)) as Hload.
    pose proof (in_flight_replace _ _ _ (snd (resume h s)) E) as Hcount.
    destruct (resume h s) as [es h'] eqn:Er. simpl in *.
    split.
    + destruct (in_flight h) eqn:Hh.
      * rewrite (Hload eq_refl).
        pose proof (in_flight_counted _ _ _ E Hh) as H1.
        destruct (loading (state w)); [|lia].
        destruct (in_flight h'); lia.
      * destruct h; try discriminate. simpl in Er.
        injection Er as <- <-. simpl in *. lia.
    + intros j Hj. specialize (Ha j Hj).
      destruct (Nat.eq_dec i j) as [<-|Hij].
      * rewrite Ha in E. injection E as <-. simpl in Er.
        injection Er as <- <-. apply nth_error_replace_same with Finished, Ha.
      * rewrite nth_error_replace_other by exact Hij. exact Ha.
Qed.

(** X8. As long as [handleSubmit] is reached only through the textarea
    and the button, both disabled while the flag is raised, at most one
    handler is in flight, the flag is raised exactly when one is, and every
    controller on which [abort()] was called belongs to a handler that has
    ended: no request in flight is ever cancelled. *)
Theorem controls_allow_one_request (evs : list event) :
  through_controls mounted evs = true ->
  let w := run mounted evs in
  List.length (filter in_flight (handlers w)) =
    (if loading (state w) then 1 else 0)%nat
  /\ (forall i, In i (aborted w) -> nth_error (handlers w) i = Some Finished).
Proof.
  assert (H : forall evs w,
    controllers_in_order w ->
    List.length (filter in_flight (handlers w)) =
      (if loading (state w) then 1 else 0)%nat ->
    (forall i, In i (aborted w) -> nth_error (handlers w) i = Some Finished) ->
    through_controls w evs = true ->
    List.length (filter in_flight (handlers (run w evs))) =
      (if loading (state (run w evs)) then 1 else 0)%nat
    /\ (forall i, In i (aborted (run w evs)) ->
        nth_error (handlers (run w evs)) i = Some Finished)).
  { clear evs. induction evs as [|ev evs IH]; intros w Hc Hn Ha Ht.
    - split; assumption.
    - simpl in Ht. apply andb_prop in Ht as [Hev Ht].
      destruct (step_through_controls w ev Hc Hn Ha Hev) as [Hn' Ha'].
      simpl. apply IH; auto using step_controllers. }
  intros Ht. apply H; auto.
  - split; [reflexivity|]. simpl. auto.
  - intros i [].
Qed.

(** ** The read loop as the answer grows *)

Lemma begins_refl (a : jsstring) : begins a a.
Proof. exists []. symmetry. apply app_nil_r. Qed.

Lemma begins_app (a b : jsstring) : begins a (a ++ b).
Proof. exists b. reflexivity. Qed.

Lemma begins_trans (a b c : jsstring) : begins a b -> begins b c -> begins a c.
Proof.
  intros [x ->] [y ->]. exists (x ++ y). symmetry. apply app_assoc.
Qed.

Lemma process_line_grows (line : jsstring) (u : ui) :
  begins (response u) (response (apply_all u (fst (process_line line)))).
Proof.
  rewrite <- apply_all_state_effects.
  pose proof (f_equal fst (process_line_spec line)) as H. simpl in H.
  rewrite H.
  repeat match goal with
         | |- context [if ?b then _ else _] => destruct b
         end; simpl; first [apply begins_refl | apply begins_app].
Qed.

Lemma process_lines_grow (lines : list jsstring) (u : ui) :
  begins (response u) (response (apply_all u (fst (process_lines lines)))).
Proof.
  revert u; induction lines as [|line lines IH]; intros u; simpl.
  - apply begins_refl.
  - pose proof (process_line_grows line u) as H.
    destruct (process_line line) as [es [|]]; simpl in H; [|exact H].
    specialize (IH (apply_all u es)).
    destruct (process_lines lines) as [es' c]; simpl in *.
    rewrite apply_all_app. exact (begins_trans _ _ _ H IH).
Qed.

Lemma resume_all_chunks_grow (values : list (list byte)) (h : handler)
  (u : ui) :
  begins (response u)
         (response (apply_all u (fst (resume_all h (chunks values))))).
Proof.
  revert h u; induction values as [|v values IH]; intros h u;
    [apply begins_refl|].
  change (chunks (v :: values)) with (read_chunk v :: chunks values).
  cbn [resume_all]. destruct h as [|rd|].
  - specialize (IH AwaitFetch u). simpl.
    destruct (resume_all AwaitFetch (chunks values)); exact IH.
  - simpl. destruct (TextDecoder.decode (decoder rd) v) as [dec chunk].
    pose proof (process_lines_grow
                  (after_pop (split_lines (buffer rd ++ chunk))) u) as H.
    destruct (process_lines (after_pop (split_lines (buffer rd ++ chunk))))
      as [es [|]]; simpl in H.
    + specialize (IH (AwaitRead {| decoder := dec;
                     buffer := pop_or_empty (split_lines (buffer rd ++ chunk)) |})
                     (apply_all u es)).
      destruct (resume_all _ (chunks values)) as [es' h']. simpl in *.
      change (console log "Received chunk:" :: es ++ es')
        with ([console log "Received chunk:"] ++ es ++ es').
      rewrite !apply_all_app. exact (begins_trans _ _ _ H IH).
    + rewrite resume_all_Finished. simpl fst. rewrite app_nil_r.
      change (apply_all u (?e :: ?l)) with (apply_all (apply u e) l).
      rewrite apply_all_app. exact H.
  - simpl. rewrite resume_all_Finished. apply begins_refl.
Qed.

(** X9. While chunks arrive the answer only grows: what is on display
    after some chunks is the beginning of what is on display after more of
    them, whatever the chunks hold. *)
Theorem answer_only_grows (w : world) (query : jsstring)
  (v1 v2 : list (list byte)) :
  eqb (trim query) [] = false ->
  begins (response (state (run w (request w query (chunks v1)))))
         (response (state (run w (request w query (chunks (v1 ++ v2)))))).
Proof.
  intros Hq. rewrite !(run_request _ _ _ Hq). simpl.
  unfold chunks at 2. rewrite map_app. fold (chunks v1) (chunks v2).
  rewrite resume_all_app.
  destruct (resume_all (AwaitRead fresh_reader) (chunks v1)) as [es h].
  pose proof (resume_all_chunks_grow v2 h (apply_all submitted es)) as H.
  destruct (resume_all h (chunks v2)) as [es' h']. simpl in *.
  rewrite apply_all_app. exact H.
Qed.

Lemma after_pop_pop_or_empty (l : list jsstring) :
  l <> [] -> after_pop l ++ [pop_or_empty l] = l.
Proof. intros H. symmetry. apply app_removelast_last, H. Qed.

(** X10. The read loop loses nothing of a live stream: the lines it has
    handled and the buffer it keeps, joined by line feeds, are the text
    received so far, and the buffer holds no complete line. *)
Theorem buffer_keeps_unfinished_line (w : world) (query : jsstring)
  (values : list (list byte)) (rd : reader) :
  eqb (trim query) [] = false ->
  last (handlers (run w (request w query (chunks values)))) Finished =
    AwaitRead rd ->
  join_on LF (complete_lines (received_text values) ++ [buffer rd]) =
    received_text values
  /\ complete_lines (buffer rd) = []
  /\ decoder rd =
     fst (TextDecoder.decode TextDecoder.initial (List.concat values)).
Proof.
  intros Hq Hh.
  destruct (snd (process_lines (complete_lines (received_text values))))
    eqn:E.
  - rewrite (request_live w query values Hq E), last_last in Hh.
    injection Hh as <-. simpl. repeat split.
    + unfold complete_lines.
      rewrite after_pop_pop_or_empty by apply split_lines_nonempty.
      rewrite split_lines_split_on. apply join_split.
    + unfold complete_lines. rewrite buffer_has_no_line. reflexivity.
  - destruct (request_returned w query values [] Hq E) as [_ H].
    rewrite H, last_last in Hh. discriminate.
Qed.

(** ** Carriage returns *)

Lemma startsWith_length (s p : jsstring) :
  startsWith s p = true -> (List.length p <= List.length s)%nat.
Proof.
  revert s; induction p as [|x p IH]; intros s H; simpl; [lia|].
  destruct s as [|y s]; simpl in H; [discriminate|].
  apply andb_prop in H as [_ H]. apply IH in H. simpl. lia.
Qed.

Lemma with_CR_recognized (line : jsstring) :
  recognized (with_CR line) = recognized line.
Proof. apply startsWith_snoc. reflexivity. Qed.

Lemma with_CR_dataStr (line : jsstring) :
  recognized line = true -> dataStr_of (with_CR line) = dataStr_of line.
Proof.
  intros H. apply startsWith_length in H. change (List.length PREFIX) with 6%nat in H.
  unfold dataStr_of, slice, with_CR. rewrite skipn_app.
  replace (6 - List.length line)%nat with 0%nat by lia.
  apply trim_snoc. reflexivity.
Qed.

Lemma with_CR_process_line (line : jsstring) :
  (state_effects (fst (process_line (with_CR line))),
   snd (process_line (with_CR line))) =
  (state_effects (fst (process_line line)), snd (process_line line)).
Proof.
  rewrite !process_line_spec, with_CR_recognized.
  destruct (recognized line) eqn:R; [|reflexivity].
  unfold field. rewrite (with_CR_dataStr _ R). reflexivity.
Qed.

Lemma with_CR_process_lines (lines : list jsstring) :
  state_effects (fst (process_lines (map with_CR lines))) =
  state_effects (fst (process_lines lines))
  /\ snd (process_lines (map with_CR lines)) = snd (process_lines lines).
Proof.
  induction lines as [|line lines [IH1 IH2]]; simpl; [auto|].
  pose proof (with_CR_process_line line) as H.
  destruct (process_line (with_CR line)) as [e1 c1],
           (process_line line) as [e2 c2].
  simpl in H. injection H as He Hc. subst c2. destruct c1; [|auto].
  destruct (process_lines (map with_CR lines)) as [e1' c1'],
           (process_lines lines) as [e2' c2']. simpl in *.
  rewrite !state_effects_app, He, IH1. auto.
Qed.

Lemma split_lines_crlf (s : jsstring) :
  split_lines (crlf s) =
  map with_CR (after_pop (split_lines s)) ++ [pop_or_empty (split_lines s)].
Proof.
  induction s as [|c s IH]; [reflexivity|].
  pose proof (split_lines_nonempty s) as Hne.
  cbn [crlf split_lines]. destruct (c =? LF) eqn:Ec.
  - cbn [split_lines]. change (CR =? LF) with false. rewrite N.eqb_refl.
    cbv iota. rewrite IH.
    destruct (split_lines s) as [|l ls]; [congruence|].
    destruct ls as [|l2 ls]; reflexivity.
  - cbn [split_lines]. rewrite Ec, IH.
    destruct (split_lines s) as [|l ls]; [congruence|].
    destruct ls as [|l2 ls]; reflexivity.
Qed.

(** X11. A stream whose lines end in carriage return and line feed is
    read like the same stream with bare line feeds: the carriage return
    stays on the line, where it neither hides the prefix nor survives the
    trimming of the payload, and a line that holds nothing else counts as
    blank. *)
Theorem carriage_return_is_ignored (text : jsstring) :
  ui_after_lines (complete_lines (crlf text)) =
  ui_after_lines (complete_lines text)
  /\ snd (process_lines (complete_lines (crlf text))) =
     snd (process_lines (complete_lines text)).
Proof.
  unfold complete_lines, ui_after_lines. rewrite split_lines_crlf.
  replace (after_pop (map with_CR (after_pop (split_lines text))
                      ++ [pop_or_empty (split_lines text)]))
    with (map with_CR (after_pop (split_lines text)))
    by (unfold after_pop at 2; rewrite removelast_last; reflexivity).
  destruct (with_CR_process_lines (after_pop (split_lines text))) as [H1 H2].
  split; [|exact H2].
  rewrite <- apply_all_state_effects, H1. apply apply_all_state_effects.
Qed.

(** ** The component that renders with [marked] *)

Lemma marked_process_line_agrees (line : jsstring) :
  beyond_console (fst (marked_process_line line)) =
  beyond_console (fst (process_line line))
  /\ snd (marked_process_line line) = snd (process_line line).
Proof.
  unfold marked_process_line, process_line, marked_try_data, try_data.
  destruct (startsWith line PREFIX).
  - destruct (eqb (trim (slice 6 line)) SENTINEL); [split; reflexivity|].
    destruct (JSON.parse (trim (slice 6 line))) as [data|];
      [|split; reflexivity].
    destruct (property data (lit "done")) as [done|]; [|split; reflexivity].
    destruct (property data (lit "error")) as [err|]; [|split; reflexivity].
    destruct (property data (lit "content")) as [content|];
      [|split; reflexivity].
    destruct (truthy done); [split; reflexivity|].
    destruct (truthy err); [split; reflexivity|].
    destruct (truthy content); split; reflexivity.
  - destruct (eqb (trim line) []); [split; reflexivity|].
    destruct (startsWith line (lit "event:") || startsWith line (lit "id:")
              || startsWith line (lit "retry:")); split; reflexivity.
Qed.

Lemma beyond_console_app (es fs : list effect) :
  beyond_console (es ++ fs) = beyond_console es ++ beyond_console fs.
Proof. apply filter_app. Qed.

Lemma marked_process_lines_agree (lines : list jsstring) :
  beyond_console (fst (marked_process_lines lines)) =
  beyond_console (fst (process_lines lines))
  /\ snd (marked_process_lines lines) = snd (process_lines lines).
Proof.
  induction lines as [|line lines [IH1 IH2]]; simpl; [auto|].
  destruct (marked_process_line_agrees line) as [H1 H2].
  destruct (marked_process_line line) as [e1 c1],
           (process_line line) as [e2 c2].
  simpl in H1, H2. subst c2. destruct c1; [|auto].
  destruct (marked_process_lines lines) as [e1' c1'],
           (process_lines lines) as [e2' c2']. simpl in *.
  rewrite !beyond_console_app, H1, IH1. auto.
Qed.

Lemma marked_resume_agrees (h : handler) (s : settlement) :
  beyond_console (fst (marked_resume h s)) = beyond_console (fst (resume h s))
  /\ snd (marked_resume h s) = snd (resume h s).
Proof.
  destruct h as [|rd|]; simpl.
  - destruct s as [[|] [|]|[|]| | |]; split; reflexivity.
  - destruct s as [ok body|e|bytes| |[|]]; try (split; reflexivity).
    simpl. destruct (TextDecoder.decode (decoder rd) bytes) as [dec chunk].
    destruct (marked_process_lines_agree
                (after_pop (split_lines (buffer rd ++ chunk)))) as [H1 H2].
    destruct (marked_process_lines
                (after_pop (split_lines (buffer rd ++ chunk)))) as [e1 c1],
             (process_lines (after_pop (split_lines (buffer rd ++ chunk))))
               as [e2 c2].
    simpl in H1, H2. subst c2. destruct c1; simpl.
    + auto.
    + split; [|reflexivity].
      change (console log "Received chunk:" :: e2 ++ releaseLock :: finally_outer)
        with ([console log "Received chunk:"] ++ e2
              ++ releaseLock :: finally_outer).
      rewrite !beyond_console_app, H1. reflexivity.
  - auto.
Qed.

(** X12. The component that renders with [marked] treats every stream as
    the first component does: however the promises settle, its
    [handleSubmit] calls the same setters with the same arguments in the
    same order, releases the reader at the same point and stops at the
    same place. The two differ on the console only. *)
Theorem marked_component_agrees (h : handler) (ss : list settlement) :
  beyond_console (fst (marked_resume_all h ss)) =
  beyond_console (fst (resume_all h ss))
  /\ snd (marked_resume_all h ss) = snd (resume_all h ss).
Proof.
  revert h; induction ss as [|s ss IH]; intros h; simpl; [auto|].
  destruct (marked_resume_agrees h s) as [H1 H2].
  destruct (marked_resume h s) as [e1 h1], (resume h s) as [e2 h2].
  simpl in H1, H2. subst h2. destruct (IH h1) as [IH1 IH2].
  destruct (marked_resume_all h1 ss) as [e1' h1'],
           (resume_all h1 ss) as [e2' h2']. simpl in *.
  rewrite !beyond_console_app, H1, IH1. auto.
Qed.

(** ** The component with the simulated stream *)

Lemma mock_stream_response (words : list jsstring) (n i : nat) (u : ui) :
  apply_all u (mock_stream true words i (S n)) =
  {| response := join_on SPACE (firstn (S (i + n)) words);
     loading := loading u |}.
Proof.
  revert i u; induction n as [|n IH]; intros i u.
  - simpl. rewrite Nat.add_0_r. reflexivity.
  - change (mock_stream true words i (S (S n)))
      with (setResponse (join_on SPACE (firstn (S i) words))
            :: mock_stream true words (S i) (S n)).
    change (apply_all u (?e :: ?es)) with (apply_all (apply u e) es).
    rewrite IH. simpl. rewrite Nat.add_succ_r. reflexivity.
Qed.

Lemma mock_stream_displayed (words : list jsstring) (n i : nat) :
  Forall (fun shown => begins shown (join_on SPACE words))
         (displayed (mock_stream true words i n)).
Proof.
  revert i; induction n as [|n IH]; intros i; simpl; constructor.
  - apply join_firstn_begins.
  - apply IH.
Qed.

(** X13. The simulated stream shows the fixed text word by word only if
    the [loading] its [handleSubmit] closed over is true: then every text
    on display is a beginning of the whole and the last is the whole. With
    the [loading] of a render in which the form is enabled, which is
    false, the loop ends before its first word and the answer stays
    empty. *)
Theorem simulated_stream (closed_over : bool) (query : jsstring) (u : ui) :
  eqb (trim query) [] = false ->
  let es := mock_handleSubmit closed_over query in
  apply_all u es =
    {| response := if closed_over then mockResponse query else [];
       loading := false |}
  /\ Forall (fun shown => begins shown (mockResponse query)) (displayed es)
  /\ (closed_over = false -> displayed es = [[]]).
Proof.
  intros Hq es; subst es. unfold mock_handleSubmit. rewrite Hq.
  pose proof (split_on_nonempty SPACE (mockResponse query)) as Hne.
  pose proof (join_split SPACE (mockResponse query)) as Hjoin.
  cbv zeta. remember (split_on SPACE (mockResponse query)) as words eqn:Hw.
  clear Hw. destruct closed_over.
  - assert (Hlen : exists n, List.length words = S n)
      by (destruct words; [congruence | eexists; reflexivity]).
    destruct Hlen as [n Hlen]. rewrite Hlen.
    split; [|split; [|discriminate]].
    + change (apply_all u (?a :: ?b :: ?es))
        with (apply_all (apply (apply u a) b) es).
      rewrite apply_all_app, mock_stream_response.
      change (0 + n)%nat with n. rewrite <- Hlen, firstn_all, Hjoin.
      reflexivity.
    + change (displayed (?a :: ?b :: ?es)) with (displayed [a; b] ++ displayed es).
      unfold displayed at 2. rewrite flat_map_app, app_nil_r.
      constructor; [exists (mockResponse query); reflexivity|].
      rewrite <- Hjoin. apply mock_stream_displayed.
  - assert (E : mock_stream false words 0 (List.length words) = [])
      by (destruct (List.length words); reflexivity).
    rewrite E. simpl. split; [reflexivity|]. split; [|reflexivity].
    constructor; [exists (mockResponse query); reflexivity | constructor].
Qed.

(** ** The older consumer at the end of a stream *)

Lemma jsx_process_lines_flag (lines : list jsstring) (u : ui) :
  existsb jsx_done lines = false ->
  loading (apply_all u (jsx_process_lines lines)) = loading u.
Proof.
  revert u; induction lines as [|line lines IH]; intros u H; [reflexivity|].
  cbn [existsb] in H. apply orb_false_elim in H as [Hd H].
  cbn [jsx_process_lines]. unfold jsx_done in Hd.
  destruct (startsWith line PREFIX); [|apply IH, H].
  cbn [andb] in Hd. unfold jsx_try_data.
  destruct (JSON.parse (slice 6 line)) as [[| | | | |members]|];
    cbn [property]; try (simpl; apply IH, H).
  rewrite Hd.
  destruct (truthy (Get members (lit "content")));
    [rewrite apply_all_app|simpl]; rewrite (IH _ H); reflexivity.
Qed.

(** X14. In [SECAnalyzer.jsx] nothing but a payload whose [done] is
    truthy lowers the flag of a stream that does not fail: if no line of
    any chunk carries one, the flag is still raised after the transport
    has closed the stream. *)
Theorem jsx_flag_needs_done_payload (values : list (list byte)) :
  forallb (fun value =>
             negb (existsb jsx_done
                     (split_lines (TextDecoder.decode_flush value))))
          values = true ->
  loading (jsx_after_request (chunks values ++ [read_done])) = true.
Proof.
  unfold jsx_after_request.
  assert (H : forall u, forallb (fun value =>
             negb (existsb jsx_done
                     (split_lines (TextDecoder.decode_flush value))))
          values = true ->
          loading (apply_all u (jsx_read_loop (chunks values ++ [read_done])))
          = loading u).
  { induction values as [|v values IH]; intros u H; [reflexivity|].
    simpl in H. apply andb_prop in H as [Hv H].
    apply negb_true_iff in Hv. simpl.
    rewrite apply_all_app, (IH _ H). apply jsx_process_lines_flag, Hv. }
  intros Hv. exact (H submitted Hv).
Qed.

(** ** The button *)

(** X15. The button is enabled exactly when a submission would go
    through: a click on it is an event the form allows, passes the guard
    of [handleSubmit] and posts the query, and whenever a submission would
    do so the button is enabled. The guard only ever stops the Enter
    key. *)
Theorem enabled_button_posts (w : world) (query : jsstring) :
  button_disabled w query = false <->
  allowed w (Submit query) = true
  /\ posted (step w (Submit query)) = posted w ++ [query].
Proof.
  unfold button_disabled, allowed, textarea_disabled. simpl.
  unfold handleSubmit. split.
  - intros H. apply orb_false_elim in H as [Hl Hq]. rewrite Hl, Hq.
    split; reflexivity.
  - intros [Ha Hp]. apply negb_true_iff in Ha. rewrite Ha.
    destruct (eqb (trim query) []); [|reflexivity].
    apply (f_equal (@List.length jsstring)) in Hp.
    rewrite length_app in Hp. simpl in Hp. lia.
Qed.

(** ** A submission after another *)







End Handler.


(** ** The claims at concrete streams *)

Import Scenario.


(** The same run in figures: when [q2] is submitted the answer of [q1] is
    on display and the flag is lowered; at the end the answer is what
    [q2]'s stream has brought and the flag is raised for it. *)
Lemma superseded_stream_is_not_shown :
  let before :=
    request mounted q1 [read_chunk (wire "data: {'content':'A'}|data: {'done':true}|")] in
  let later :=
    [Settle 1 (fetch_response true true);
     Settle 0 (read_rejected AbortError);
     Settle 1 (read_chunk (wire "data: {'content':'Meta: '}|"))] in
  state (run print mounted before) = {| response := lit "A"; loading := false |}
  /\ deliverable_all print (run print mounted (before ++ [Submit q2])) later
  /\ state (run print mounted (before ++ Submit q2 :: later)) =
     {| response := lit "Meta: "; loading := true |}.
Proof.
  cbv zeta. split; [|split].
  - vm_compute. reflexivity.
  - vm_compute. repeat split; discriminate.
  - vm_compute. reflexivity.
Qed.

(** The run in which [handleSubmit] is entered while a handler is in
    flight is none the form lets happen. *)
Lemma overtaken_not_through_controls :
  through_controls print mounted overtaken = false.
Proof. vm_compute. reflexivity. Qed.

Lemma overtaken_request_clears_loading_witness :
  let w2 := run print mounted
              (first_request q1 [fetch_response true true] ++ [Submit q2]) in
  let w := step print w2 (Settle 0 (read_rejected AbortError)) in
  deliverable w2 (Settle 0 (read_rejected AbortError))
  /\ state w2 = {| response := []; loading := true |}
  /\ state w = {| response := []; loading := false |}
  /\ handlers w = [Finished; AwaitFetch]
  /\ posted w = [q1; q2].
Proof.
  apply (overtaken_request_clears_loading print q1 q2
           [fetch_response true true] (AwaitRead fresh_reader)).
  - vm_compute. reflexivity.
  - vm_compute. reflexivity.
  - vm_compute. reflexivity.
  - discriminate.
Defined.

Lemma chunking_is_transparent_witness :
  state_effects
    (fst (resume_all print (AwaitRead fresh_reader) (chunks whole))) =
  state_effects
    (fst (resume_all print (AwaitRead fresh_reader) (chunks split_mid_line)))
  /\ run print mounted (request mounted q1 (chunks whole ++ [read_done])) =
     run print mounted (request mounted q1 (chunks split_mid_line ++ [read_done])).
Proof.
  apply (chunking_is_transparent print mounted q1 whole split_mid_line [read_done]).
  vm_compute. reflexivity.
Defined.

(** A chunk boundary inside a character is as harmless as one inside a
    line. *)
Lemma split_character_is_joined :
  state (run print mounted (request mounted q1 (chunks split_mid_character))) =
  {| response := lit "caf" ++ [233]; loading := true |}.
Proof. vm_compute. reflexivity. Qed.

Lemma termination_marker_stops_stream_witness :
  let w := run print mounted
             (request mounted q1 (chunks done_then_more ++ [read_done])) in
  loading (state w) = false
  /\ response (state w) =
     response (ui_after_lines print [text "data: {'content':'A'}"])
  /\ handlers w = [Finished].
Proof.
  apply (termination_marker_stops_stream print mounted q1 done_then_more [read_done]
           [text "data: {'content':'A'}"] [text "data: {'content':'B'}"]
           (text "data: {'done':true}")).
  - vm_compute. reflexivity.
  - vm_compute. reflexivity.
  - vm_compute. reflexivity.
  - right. vm_compute. reflexivity.
Defined.

Lemma end_of_stream_without_terminal_witness :
  let before := run print mounted (request mounted q1 (chunks split_mid_line)) in
  let w := run print mounted
             (request mounted q1 (chunks split_mid_line ++ [read_done])) in
  loading (state before) = true
  /\ loading (state w) = false
  /\ response (state w) =
     List.concat (map (content_of print)
                      (complete_lines (received_text split_mid_line)))
  /\ handlers w = [Finished].
Proof.
  apply (end_of_stream_without_terminal print mounted q1 split_mid_line).
  - vm_compute. reflexivity.
  - vm_compute. reflexivity.
Defined.

(** What follows the last line feed never becomes a line: at the end of the
    stream it is still in the buffer and is dropped with it. *)
Lemma unterminated_last_line_is_dropped :
  state (run print mounted (request mounted q1 (chunks unterminated ++ [read_done]))) =
  {| response := lit "A"; loading := false |}.
Proof. vm_compute. reflexivity. Qed.

(** The scenario of the spec: the error [rate limited] after some content,
    and a line after it that is never read. *)
Lemma error_payload_terminates_witness :
  let w := run print mounted (request mounted q1 (chunks rate_limited)) in
  loading (state w) = false
  /\ response (state w) = lit "Partial" ++ LF :: LF :: lit "Error: rate limited"
  /\ handlers w = [Finished].
Proof.
  pose proof (error_payload_terminates print mounted q1 rate_limited []
                [text "data: {'content':'Partial'}"]
                [text "data: {'content':'late'}"]
                (text "data: {'error':'rate limited'}")) as H.
  rewrite app_nil_r in H. apply H; vm_compute; reflexivity.
Defined.

(** C5 as worded fails: a payload whose [error] is the empty string is a
    payload with an [error] field, yet the consumer appends no notice,
    keeps loading, and goes on to the next line. *)
Lemma error_field_can_be_ignored : ~ error_field_always_terminates print.
Proof.
  intros H.
  specialize (H empty_error [] [text "data: {'content':'still streaming'}"]
                (text "data: {'error':''}") [(lit "error", JString [])]
                (JString [])).
  destruct H as [Hloading _]; try (vm_compute; reflexivity).
  vm_compute in Hloading. discriminate.
Qed.

Lemma malformed_line_is_skipped_witness :
  state (run print mounted (request mounted q1 (chunks with_garbage ++ closing true))) =
  state (run print mounted (request mounted q1 (chunks without_garbage ++ closing true))).
Proof.
  apply (malformed_line_is_skipped print mounted q1 with_garbage without_garbage
           [text "data: {'content':'A'}"] [text "data: {'content':'B'}"]
           (text "data: {'content':") true).
  - vm_compute. reflexivity.
  - vm_compute. reflexivity.
  - vm_compute. reflexivity.
  - vm_compute. discriminate.
  - vm_compute. reflexivity.
Defined.

Lemma content_is_concatenated_witness :
  state (run print mounted (request mounted q1 (chunks framed))) =
  {| response := lit "Reven" ++ lit "ue"; loading := true |}.
Proof.
  refine (proj1 (content_is_concatenated print mounted q1 framed
                   [lit "Reven"; lit "ue"] _ _)).
  - vm_compute. reflexivity.
  - change (complete_lines (received_text framed))
      with [text "event: message"; text "data: {'content':'Reven'}"; [];
            text "data: {'content':'ue'}"; []].
    apply carries_framing; [reflexivity|].
    apply carries_content; [repeat split; vm_compute; reflexivity|].
    apply carries_framing; [reflexivity|].
    apply carries_content; [repeat split; vm_compute; reflexivity|].
    apply carries_framing; [reflexivity|]. apply carries_nothing.
Defined.

Lemma blank_submit_is_noop_witness :
  let w := run print mounted (request mounted q1 (chunks whole)) in
  step print w (Submit (LF :: lit "  ")) = w.
Proof.
  apply (blank_submit_is_noop print). vm_compute. reflexivity.
Defined.

Lemma unrecognized_line_is_skipped_witness :
  snd (process_line print (lit "event: message")) = Continue
  /\ state_effects (fst (process_line print (lit "event: message"))) = [].
Proof.
  pose proof (unrecognized_line_is_skipped print (lit "event: message")) as H.
  destruct H as [Hc [He _]]; [vm_compute; reflexivity|]. split; assumption.
Defined.

Lemma payload_fields_have_priority_witness :
  let line := text "data: {'error':'x','content':'y'}" in
  (state_effects (fst (process_line print line)), snd (process_line print line))
  = ([setResponse_append (LF :: LF :: lit "Error: x"); setLoading false],
     Return).
Proof.
  pose proof (payload_fields_have_priority print
                (text "data: {'error':'x','content':'y'}")) as H.
  destruct H as [_ [_ [He _]]]; [vm_compute; reflexivity|].
  apply He; vm_compute; reflexivity.
Defined.


(** ** Submissions, failures and the form at concrete streams *)

Lemma submit_posts_query_as_typed_witness :
  let w := run print mounted (request mounted q1 (chunks whole)) in
  let w' := step print w (Submit (LF :: lit " revenue? ")) in
  posted w' = posted w ++ [LF :: lit " revenue? "]
  /\ handlers w' = handlers w ++ [AwaitFetch]
  /\ state w' = {| response := []; loading := true |}
  /\ abortControllerRef w' = Some (List.length (handlers w)).
Proof.
  apply (submit_posts_query_as_typed print
           (run print mounted (request mounted q1 (chunks whole)))
           (LF :: lit " revenue? ")).
  vm_compute. reflexivity.
Defined.

Lemma answer_depends_on_own_stream_witness :
  let w2 := run print mounted (request mounted q1 (chunks rate_limited)) in
  let settled := fetch_response true true :: chunks whole in
  state (run print mounted (submission mounted q2 settled)) =
  state (run print w2 (submission w2 q2 settled))
  /\ last (handlers (run print mounted (submission mounted q2 settled)))
          Finished =
     last (handlers (run print w2 (submission w2 q2 settled))) Finished.
Proof.
  apply (answer_depends_on_own_stream print mounted
           (run print mounted (request mounted q1 (chunks rate_limited)))
           q2 (fetch_response true true :: chunks whole)).
  vm_compute. reflexivity.
Defined.

Lemma loading_while_in_flight_witness :
  let w := run print mounted
             (submission mounted q1
                (fetch_response true true :: chunks done_then_more)) in
  exists h, handlers w = handlers mounted ++ [h]
            /\ loading (state w) = in_flight h.
Proof.
  apply (loading_while_in_flight print mounted q1
           (fetch_response true true :: chunks done_then_more)).
  vm_compute. reflexivity.
Defined.

Lemma transport_failure_shows_apology_witness :
  let w := run print mounted
             (submission mounted q1
                ((fetch_response true true :: chunks whole)
                 ++ [read_rejected TypeError])) in
  state w = {| response := SORRY; loading := false |}
  /\ handlers w = handlers mounted ++ [Finished].
Proof.
  apply (transport_failure_shows_apology print mounted q1
           (fetch_response true true :: chunks whole)
           (last (handlers
                    (run print mounted
                       (submission mounted q1
                          (fetch_response true true :: chunks whole))))
                 Finished)
           (read_rejected TypeError)).
  - vm_compute. reflexivity.
  - vm_compute. reflexivity.
  - vm_compute. reflexivity.
Defined.

Lemma controls_allow_one_request_witness :
  let w := run print mounted
             (request mounted q1 (chunks whole ++ [read_done])
              ++ [Submit q2; Settle 1 (fetch_response false false);
                  Submit q1; Settle 0 read_done]) in
  List.length (filter in_flight (handlers w)) =
    (if loading (state w) then 1 else 0)%nat
  /\ (forall i, In i (aborted w) -> nth_error (handlers w) i = Some Finished).
Proof.
  apply (controls_allow_one_request print
           (request mounted q1 (chunks whole ++ [read_done])
            ++ [Submit q2; Settle 1 (fetch_response false false);
                Submit q1; Settle 0 read_done])).
  vm_compute. reflexivity.
Defined.

(** ** The read loop at concrete streams *)

Lemma answer_only_grows_witness :
  begins
    (response (state (run print mounted
                        (request mounted q1
                           (chunks [wire "data: {'content':'Reven'}|da"])))))
    (response (state (run print mounted
                        (request mounted q1
                           (chunks ([wire "data: {'content':'Reven'}|da"]
                                    ++ [wire "ta: {'content':'ue'}|"])))))).
Proof.
  apply (answer_only_grows print mounted q1
           [wire "data: {'content':'Reven'}|da"]
           [wire "ta: {'content':'ue'}|"]).
  vm_compute. reflexivity.
Defined.

Lemma buffer_keeps_unfinished_line_witness :
  let rd := {| decoder := fst (TextDecoder.decode TextDecoder.initial
                                 (List.concat unterminated));
               buffer := text "data: {'content':'B'}" |} in
  join_on LF (complete_lines (received_text unterminated) ++ [buffer rd]) =
    received_text unterminated
  /\ complete_lines (buffer rd) = []
  /\ decoder rd =
     fst (TextDecoder.decode TextDecoder.initial (List.concat unterminated)).
Proof.
  apply (buffer_keeps_unfinished_line print mounted q1 unterminated
           {| decoder := fst (TextDecoder.decode TextDecoder.initial
                                (List.concat unterminated));
              buffer := text "data: {'content':'B'}" |}).
  - vm_compute. reflexivity.
  - vm_compute. reflexivity.
Defined.

(** ** The simulated stream at a concrete query *)

Lemma simulated_stream_witness :
  let es := mock_handleSubmit true q1 in
  apply_all {| response := lit "old"; loading := false |} es =
    {| response := mockResponse q1; loading := false |}
  /\ Forall (fun shown => begins shown (mockResponse q1)) (displayed es)
  /\ (true = false -> displayed es = [[]]).
Proof.
  apply (simulated_stream true q1 {| response := lit "old"; loading := false |}).
  vm_compute. reflexivity.
Defined.

(** ** The older consumer on the same streams *)

(** It has no carry-over buffer: a line cut by a chunk boundary is lost.
    It has no [finally]: the end of the stream leaves the flag true. *)
Lemma jsx_loses_split_lines :
  jsx_after_request print (chunks whole ++ [read_done]) =
    {| response := lit "Revenue"; loading := true |}
  /\ jsx_after_request print (chunks split_mid_line ++ [read_done]) =
    {| response := []; loading := true |}.
Proof. split; vm_compute; reflexivity. Qed.

(** Its [break] leaves the [for] loop only: the chunk after the
    termination marker is read. *)
Lemma jsx_reads_past_done :
  jsx_after_request print (chunks done_then_more ++ [read_done]) =
    {| response := lit "AB"; loading := false |}.
Proof. vm_compute. reflexivity. Qed.

(** It does not look at the [error] field. *)
Lemma jsx_ignores_error_field :
  jsx_after_request print (chunks rate_limited ++ [read_done]) =
    {| response := lit "Partiallate"; loading := true |}.
Proof. vm_compute. reflexivity. Qed.

Lemma jsx_flag_needs_done_payload_witness :
  loading (jsx_after_request print (chunks rate_limited ++ [read_done])) = true.
Proof.
  apply (jsx_flag_needs_done_payload print rate_limited).
  vm_compute. reflexivity.
Defined.
